(** * addr-alloc: the VPN address allocator of addr_alloc.go

    A shallow embedding of the allocation engine of [addr_alloc.go]: the
    byte-wise successor [nextIP], the start-up recovery scan of [main], the
    HTTP dispatcher [ServeHTTP] and the two handlers [ServeGet] and
    [ServeAll], over a model of the one Bolt bucket ("addresses") the
    program keeps its records in.

    Conventions.
    - A [net.IP] is modelled in its 4-byte form (what [To4] returns and what
      the program stores): a record of four bytes, most significant first.
    - The bucket is a finite map from device names to 4-byte addresses.
    - Go mutates [h.next] in place; here the handler is threaded through
      every call and [nextIP] returns the new slice contents.
    - [db.Update] either fails to begin, fails to commit, or commits; the
      outcome of every transaction of a request is an input of the model. *)

From Stdlib Require Import ZArith Lia String Ascii List.
From stdpp Require Import gmap strings list fin_maps sorting.
From coqutil Require Import Byte.

Local Open Scope Z_scope.

(** ** Bytes and byte slices *)

Module Bytes.

(** [b++] on a Go [byte]: addition of one with wrap-around at 256. *)
Definition incr (b : byte) : byte := byte.of_Z (byte.unsigned b + 1).

Definition zero : byte := byte.of_Z 0.

(** [b == 0] *)
Definition is_zero (b : byte) : bool := byte.unsigned b =? 0.

(** [bytes.Compare]: lexicographic comparison of two byte slices,
    -1, 0 or +1. A proper prefix is smaller. *)
Fixpoint Compare (a b : list byte) : Z :=
  match a, b with
  | [], [] => 0
  | [], _ :: _ => -1
  | _ :: _, [] => 1
  | x :: a', y :: b' =>
      if byte.unsigned x <? byte.unsigned y then -1
      else if byte.unsigned y <? byte.unsigned x then 1
      else Compare a' b'
  end.

End Bytes.

(** ** 4-byte addresses *)

Module Net.

(** A [net.IP] of length 4; [ip0] is the most significant byte ([a[0]]). *)
Record IP : Type := mkIP { ip0 : byte; ip1 : byte; ip2 : byte; ip3 : byte }.

(** The underlying slice, as [bytes.Compare] sees it. *)
Definition slice (a : IP) : list byte := [ip0 a; ip1 a; ip2 a; ip3 a].

(** [net.IPv4(a, b, c, d).To4()] *)
Definition IPv4 (a b c d : byte) : IP := mkIP a b c d.

(** [To4] of a 4-byte address is the address itself. *)
Definition To4 (a : IP) : IP := a.

(** Index assignments [a[i] = v]. *)
Definition set0 (v : byte) (a : IP) : IP := mkIP v (ip1 a) (ip2 a) (ip3 a).
Definition set1 (v : byte) (a : IP) : IP := mkIP (ip0 a) v (ip2 a) (ip3 a).
Definition set2 (v : byte) (a : IP) : IP := mkIP (ip0 a) (ip1 a) v (ip3 a).
Definition set3 (v : byte) (a : IP) : IP := mkIP (ip0 a) (ip1 a) (ip2 a) v.

(** One decimal digit. *)
Definition digit (d : Z) : ascii := ascii_of_N (Z.to_N (48 + d)).

(** Decimal rendering of a byte value (0..255), no leading zeros. *)
Definition uitoa (v : Z) : string :=
  if v <? 10 then String (digit v) EmptyString
  else if v <? 100 then
    String (digit (v / 10)) (String (digit (v mod 10)) EmptyString)
  else
    String (digit (v / 100))
      (String (digit (v / 10 mod 10)) (String (digit (v mod 10)) EmptyString)).

(** [IP.String]: dotted decimal. *)
Definition String_ (a : IP) : string :=
  (uitoa (byte.unsigned (ip0 a)) ++ "." ++ uitoa (byte.unsigned (ip1 a)) ++ "."
   ++ uitoa (byte.unsigned (ip2 a)) ++ "." ++ uitoa (byte.unsigned (ip3 a)))%string.

(** The address as a big-endian unsigned 32-bit integer. *)
Definition to_uint32 (a : IP) : Z :=
  byte.unsigned (ip0 a) * 16777216 + byte.unsigned (ip1 a) * 65536
  + byte.unsigned (ip2 a) * 256 + byte.unsigned (ip3 a).

(** The address whose big-endian value is [z] modulo 2^32. *)
Definition of_uint32 (z : Z) : IP :=
  mkIP (byte.of_Z (z / 16777216)) (byte.of_Z (z / 65536))
       (byte.of_Z (z / 256)) (byte.of_Z z).

Definition dotted (a b c d : Z) : IP :=
  mkIP (byte.of_Z a) (byte.of_Z b) (byte.of_Z c) (byte.of_Z d).

End Net.

Import Net.

(** ** Package-level variables *)

(** First IP address to allocate: [net.ParseIP("10.8.0.2").To4()]. *)
Definition ini : IP := dotted 10 8 0 2.

(** Last IP address to allocate; an attempt to allocate this address
    fails: [net.ParseIP("10.92.255.255").To4()]. *)
Definition fin : IP := dotted 10 92 255 255.

(** ** [nextIP]: from an IP address, calculate the next one *)

Definition nextIP (a : IP) : IP :=
  let a := set3 (Bytes.incr (ip3 a)) a in
  if Bytes.is_zero (ip3 a) then
    let a := set3 Bytes.zero a in
    let a := set2 (Bytes.incr (ip2 a)) a in
    if Bytes.is_zero (ip2 a) then
      let a := set2 Bytes.zero a in
      let a := set1 (Bytes.incr (ip1 a)) a in
      if Bytes.is_zero (ip1 a) then
        let a := set1 Bytes.zero a in
        let a := set0 (Bytes.incr (ip0 a)) a in
        a
      else a
    else a
  else a.

(** ** Strings *)

Module Strings.

(** [strings.HasPrefix(s, prefix)] *)
Definition HasPrefix (s prefix : string) : bool := String.prefix prefix s.

(** [strings.TrimPrefix(s, prefix)]: [s] without the leading [prefix],
    or [s] itself when it does not start with [prefix]. *)
Definition TrimPrefix (s prefix : string) : string :=
  if HasPrefix s prefix
  then String.substring (String.length prefix)
         (String.length s - String.length prefix) s
  else s.

End Strings.

(** ** The key-value store

    The part of Bolt the program uses, for the single bucket "addresses"
    (created by [main] before any request is served). *)

Module Bolt.

Inductive error : Type :=
| ErrKeyRequired      (* Put: the key is blank *)
| ErrKeyTooLarge      (* Put: the key is longer than MaxKeySize *)
| ErrTx.              (* the transaction could not begin or commit *)

(** Bolt's [MaxKeySize], in bytes. *)
Definition MaxKeySize : Z := 32768.

(** [b.Get(key)]: the value, or nil when the key is absent. *)
Definition Get (b : gmap string IP) (key : string) : option IP := b !! key.

(** The keys [Put] accepts. *)
Definition valid_key (key : string) : bool :=
  negb (Z.of_nat (String.length key) =? 0)
  && negb (MaxKeySize <? Z.of_nat (String.length key)).

(** [b.Put(key, value)]: sets the value for a key in the bucket; if the
    key exists its previous value is overwritten. Bolt documents it to
    return an error if the key is blank ([ErrKeyRequired], [len(key) == 0]),
    if the key is too large ([ErrKeyTooLarge], [len(key) > MaxKeySize]) or
    if the value is too large (never the case for the 4 bytes stored
    here). *)
Definition Put (b : gmap string IP) (key : string) (value : IP)
  : error + gmap string IP :=
  if Z.of_nat (String.length key) =? 0 then inl ErrKeyRequired
  else if MaxKeySize <? Z.of_nat (String.length key) then inl ErrKeyTooLarge
  else inr (<[key := value]> b).

(** Keys in byte order, the order of a Bolt cursor. *)
Definition key_le (x y : string * IP) : Prop := String.leb (fst x) (fst y) = true.

#[global] Instance key_le_dec (x y : string * IP) : Decision (key_le x y) :=
  bool_eq_dec (String.leb (fst x) (fst y)) true.

(** [for k, v := c.First(); k != nil; k, v = c.Next()]: every record of
    the bucket, by increasing key. *)
Definition Cursor (b : gmap string IP) : list (string * IP) :=
  merge_sort key_le (map_to_list b).

(** What happens to one [db.Update] call. *)
Inductive TxFault : Type :=
| NoFault        (* the transaction runs and commits *)
| BeginFails     (* the function is never called *)
| CommitFails.   (* the function runs, the commit fails *)

(** [db.Update(fn)]: runs [fn] in a read-write transaction. If [fn]
    returns nil the transaction is committed, otherwise it is rolled
    back; an error of [fn] or of the commit is returned. [locals] are
    the variables of the caller that the closure [fn] assigns: they keep
    what [fn] stored in them also when the transaction is rolled back. *)
Definition Update {L : Type} (f : TxFault) (b : gmap string IP) (locals : L)
    (fn : gmap string IP -> L -> L * gmap string IP * option error)
  : L * gmap string IP * option error :=
  match f with
  | BeginFails => (locals, b, Some ErrTx)
  | _ =>
      let '(locals', b', e) := fn b locals in
      match e with
      | Some err => (locals', b, Some err)
      | None =>
          match f with
          | CommitFails => (locals', b, Some ErrTx)
          | _ => (locals', b', None)
          end
      end
  end.

End Bolt.

(** ** State information *)

Record Handler : Type := mkHandler {
  (* Key-value store. *)
  db : gmap string IP;
  (* Next IP address to allocate. *)
  next : IP
}.

(** ** HTTP responses *)

Inductive Body : Type :=
| Text (s : string)                  (* io.WriteString(w, s) *)
| JSON (m : gmap string string).     (* json.Marshal of a map[string]string *)

Record Response : Type := mkResponse {
  content_type : string;
  status : Z;
  body : Body
}.

Definition StatusOK : Z := 200.
Definition StatusNotFound : Z := 404.
Definition StatusInternalServerError : Z := 500.

Definition plain (code : Z) (s : string) : Response :=
  mkResponse "text/plain; charset=utf-8" code (Text s).

(** The outcome of the first and of the second [db.Update] of a request. *)
Record Faults : Type := mkFaults { tx1 : Bolt.TxFault; tx2 : Bolt.TxFault }.

Definition no_faults : Faults := mkFaults Bolt.NoFault Bolt.NoFault.

(** ** [ServeAll]

    [CreateBucketIfNotExists] finds the bucket [main] created; the error
    of [db.Update] is dropped, so the mapping is sent as far as it was
    filled. *)

Definition ServeAll (f : Faults) (h : Handler) : Response * Handler :=
  let mappings : gmap string string := ∅ in
  let '(mappings, b, _) :=
    Bolt.Update (tx1 f) (db h) mappings (fun b mappings =>
      (* Loop through all keys. *)
      (fold_left (fun m kv => <[fst kv := String_ (To4 (snd kv))]> m)
                 (Bolt.Cursor b) mappings,
       b, None)) in
  (mkResponse "text/plain; charset=utf-8" StatusOK (JSON mappings),
   mkHandler b (next h)).

(** ** [ServeGet] *)

Definition ServeGet (f : Faults) (h : Handler) (device : string)
  : Response * Handler :=
  let addr := ""%string in
  let found := false in
  (* See if this address is already in the database. *)
  let '(addr, found, b, err) :=
    Bolt.Update (tx1 f) (db h) (addr, found) (fun b '(addr, found) =>
      match Bolt.Get b device with
      | Some v => (String_ (To4 v), true, b, None)
      | None => (addr, found, b, None)
      end) in
  let h := mkHandler b (next h) in
  (* Handle failure with a 500 status. *)
  match err with
  | Some _ => (plain StatusInternalServerError "Database lookup failed.", h)
  | None =>
      (* If not found... *)
      if negb found then
        (* If we've run out of addresses, that's a 500 error. *)
        if Bytes.Compare (slice (next h)) (slice fin) =? 0 then
          (plain StatusInternalServerError "Ran out of IP addresses.", h)
        else
          (* Allocate new address. *)
          let addr := String_ (next h) in
          (* Write address to database. *)
          let '(_, b, err) :=
            Bolt.Update (tx2 f) (db h) tt (fun b _ =>
              match Bolt.Put b device (next h) with
              | inl e => (tt, b, Some e)
              | inr b' => (tt, b', None)
              end) in
          let h := mkHandler b (next h) in
          (* Throw error if allocation failed. *)
          match err with
          | Some _ => (plain StatusInternalServerError "Database write failed.", h)
          | None =>
              (* Address is allocated, increment next address. *)
              let h := mkHandler (db h) (nextIP (next h)) in
              (plain StatusOK addr, h)
          end
      else (plain StatusOK addr, h)
  end.

(** ** [ServeHTTP]: HTTP request handler *)

Definition ServeHTTP (f : Faults) (h : Handler) (path : string)
  : Response * Handler :=
  if String.eqb path "/all" then ServeAll f h
  else if Strings.HasPrefix path "/get/" then
    ServeGet f h (Strings.TrimPrefix path "/get/")
  else (plain StatusNotFound "Not found.", h).

(** ** [main]: finding the next available address at start-up *)

(** The body of the loop over all keys. *)
Definition scan_step (next : IP) (kv : string * IP) : IP :=
  let ip := To4 (snd kv) in
  (* Look for a higher key than the last seen. *)
  if Bytes.Compare (slice ip) (slice next) >=? 0 then
    let next := IPv4 (ip0 ip) (ip1 ip) (ip2 ip) (ip3 ip) in
    (* Increment highest key to make next available free. *)
    nextIP next
  else next.

Definition scan (next : IP) (records : list (string * IP)) : IP :=
  fold_left scan_step records next.

(** The state [main] hands to the HTTP server. The error of [db.Update] is
    dropped by [main]. *)
Definition main (f : Bolt.TxFault) (b : gmap string IP) : Handler :=
  let next := ini in
  let '(next, b, _) :=
    Bolt.Update f b next (fun b next => (scan next (Bolt.Cursor b), b, None)) in
  mkHandler b next.

(** ** Serving a sequence of requests *)

Record Request : Type := mkRequest { Path : string; faults : Faults }.

(** One entry per request served: the state before, the request, the
    response. *)
Fixpoint serve (h : Handler) (rs : list Request)
  : list (Handler * Request * Response) * Handler :=
  match rs with
  | [] => ([], h)
  | r :: rs' =>
      let '(resp, h') := ServeHTTP (faults r) h (Path r) in
      let '(tr, h'') := serve h' rs' in
      ((h, r, resp) :: tr, h'')
  end.

(** The device a request resolves, when it is a [/get/] request. *)
Definition requested_device (path : string) : option string :=
  if String.eqb path "/all" then None
  else if Strings.HasPrefix path "/get/" then Some (Strings.TrimPrefix path "/get/")
  else None.

(** A first-time allocation: a [/get/] request for a device without a
    record that is answered with status 200. *)
Definition fresh_alloc (e : Handler * Request * Response) : option (string * Body) :=
  let '(h, r, resp) := e in
  match requested_device (Path r) with
  | Some d =>
      match db h !! d with
      | None => if status resp =? StatusOK then Some (d, body resp) else None
      | Some _ => None
      end
  | None => None
  end.

Definition fresh_allocs (tr : list (Handler * Request * Response))
  : list (string * Body) := omap fresh_alloc tr.

(** Everything that can happen to the allocator: a request, or a restart
    of the process (which runs [main] on the persisted bucket). *)
Inductive Op : Type :=
| OpRequest (r : Request)
| OpRestart (f : Bolt.TxFault).

Definition apply_op (h : Handler) (o : Op) : Handler :=
  match o with
  | OpRequest r => snd (ServeHTTP (faults r) h (Path r))
  | OpRestart f => main f (db h)
  end.

(** ** Requests in flight together

    [net/http] runs [ServeHTTP] of every connection in a goroutine of its
    own, so several [ServeGet] calls can be in progress at once. Here a
    call is cut at its accesses to the shared handler: each [db.Update] is
    one indivisible step (Bolt runs one read-write transaction at a time),
    and so is each statement that reads or writes [h.next]. *)

(** Where a [ServeGet] call stands, with its local variables. *)
Inductive Pc : Type :=
| AtLookup                                (* before the first db.Update *)
| AtGuard                                 (* not found: before [bytes.Compare(h.next, fin)] *)
| AtAllocate                              (* before [addr = h.next.String()] *)
| AtWrite (addr : string)                 (* before the second db.Update *)
| AtAdvance (addr : string)               (* before [nextIP(h.next)] *)
| Done (resp : Response).

Record Call : Type := mkCall { c_device : string; c_faults : Faults; c_pc : Pc }.

(** The bucket operations a transaction ran (committed or not). *)
Inductive TxOp : Type :=
| TxGet (key : string) (result : option IP)
| TxPut (key : string) (value : IP).

(** One step of a call: the new handler, the new position, and the
    operations of the transaction the step ran, if it ran one. *)
Definition call_step (h : Handler) (c : Call) : Handler * Pc * option (list TxOp) :=
  let device := c_device c in
  match c_pc c with
  | AtLookup =>
      let '(addr, found, b, err) :=
        Bolt.Update (tx1 (c_faults c)) (db h) (""%string, false) (fun b '(addr, found) =>
          match Bolt.Get b device with
          | Some v => (String_ (To4 v), true, b, None)
          | None => (addr, found, b, None)
          end) in
      let h := mkHandler b (next h) in
      let ops :=
        match tx1 (c_faults c) with
        | Bolt.BeginFails => []
        | _ => [TxGet device (Bolt.Get (db h) device)]
        end in
      match err with
      | Some _ =>
          (h, Done (plain StatusInternalServerError "Database lookup failed."), Some ops)
      | None =>
          if negb found then (h, AtGuard, Some ops)
          else (h, Done (plain StatusOK addr), Some ops)
      end
  | AtGuard =>
      if Bytes.Compare (slice (next h)) (slice fin) =? 0 then
        (h, Done (plain StatusInternalServerError "Ran out of IP addresses."), None)
      else (h, AtAllocate, None)
  | AtAllocate => (h, AtWrite (String_ (next h)), None)
  | AtWrite addr =>
      let '(_, b, err) :=
        Bolt.Update (tx2 (c_faults c)) (db h) tt (fun b _ =>
          match Bolt.Put b device (next h) with
          | inl e => (tt, b, Some e)
          | inr b' => (tt, b', None)
          end) in
      let ops :=
        match tx2 (c_faults c) with
        | Bolt.BeginFails => []
        | _ => [TxPut device (next h)]
        end in
      let h := mkHandler b (next h) in
      match err with
      | Some _ =>
          (h, Done (plain StatusInternalServerError "Database write failed."), Some ops)
      | None => (h, AtAdvance addr, Some ops)
      end
  | AtAdvance addr => (mkHandler (db h) (nextIP (next h)), Done (plain StatusOK addr), None)
  | Done resp => (h, Done resp, None)
  end.

(** A call run on its own, for at most [n] steps. *)
Fixpoint run_call (n : nat) (h : Handler) (c : Call) : Handler * Call :=
  match n with
  | O => (h, c)
  | S n' =>
      let '(h', pc', _) := call_step h c in
      run_call n' h' (mkCall (c_device c) (c_faults c) pc')
  end.

(** The handler shared by the calls in flight, the calls, and the log of
    transactions in the order Bolt ran them, each with the index of the
    call that ran it. *)
Record System : Type := mkSystem {
  sys_handler : Handler;
  sys_calls : list Call;
  sys_log : list (nat * list TxOp)
}.

(** The scheduler lets call number [i] take one step. *)
Definition sched_step (s : System) (i : nat) : System :=
  match sys_calls s !! i with
  | None => s
  | Some c =>
      let '(h', pc', tx) := call_step (sys_handler s) c in
      mkSystem h'
        (<[i := mkCall (c_device c) (c_faults c) pc']> (sys_calls s))
        (match tx with
         | Some ops => sys_log s ++ [(i, ops)]
         | None => sys_log s
         end)
  end.

Definition run_schedule (s : System) (schedule : list nat) : System :=
  fold_left sched_step schedule s.

(** The responses of the calls that have finished. *)
Definition responses (s : System) : list (option Response) :=
  map (fun c => match c_pc c with Done r => Some r | _ => None end) (sys_calls s).

(** The second transaction of [ServeGet] returns an error: it could not
    begin, its [Put] was refused, or it could not commit. *)
Definition write_fails (f : Faults) (d : string) : Prop :=
  tx2 f <> Bolt.NoFault \/ Bolt.valid_key d = false.

(** ** Notions used in the statements *)

(** [m] is the highest address recorded in the bucket. *)
Definition is_max_record (b : gmap string IP) (m : IP) : Prop :=
  (exists k, b !! k = Some m)
  /\ forall k v, b !! k = Some v -> to_uint32 v <= to_uint32 m.

(** The cursor lies between [ini] and [fin], both included. *)
Definition cursor_in_range (h : Handler) : Prop :=
  to_uint32 ini <= to_uint32 (next h) <= to_uint32 fin.

(** The address lies in the pool, [ini] included and [fin] excluded. *)
Definition in_pool (a : IP) : Prop :=
  to_uint32 ini <= to_uint32 a < to_uint32 fin.

(** What the run keeps true when every record of the bucket [b] found at
    start-up lies below [fin]. *)
Definition below_fin (b : gmap string IP) (h : Handler) : Prop :=
  cursor_in_range h
  /\ forall k v, db h !! k = Some v ->
       to_uint32 v < to_uint32 fin /\ (b !! k = None -> in_pool v).

(** Reading back a decimal number: the value of the leading digits of a
    string (on top of [acc]) and the rest of the string. *)
Definition is_digit (c : ascii) : bool :=
  (48 <=? Z.of_N (N_of_ascii c)) && (Z.of_N (N_of_ascii c) <=? 57).

Fixpoint read_decimal (acc : Z) (s : string) : Z * string :=
  match s with
  | String c r =>
      if is_digit c then read_decimal (acc * 10 + (Z.of_N (N_of_ascii c) - 48)) r
      else (acc, s)
  | EmptyString => (acc, s)
  end.

(** The cursor is the watermark of the bucket: it lies between [ini] and
    [fin], above every recorded address, and it is [ini] or the successor
    of a recorded address. *)
Definition watermark (h : Handler) : Prop :=
  cursor_in_range h
  /\ (forall k v, db h !! k = Some v -> to_uint32 v < to_uint32 (next h))
  /\ (next h = ini \/ exists k v, db h !! k = Some v /\ nextIP v = next h).

(** No two devices of the bucket have the same address. *)
Definition injective_bucket (b : gmap string IP) : Prop :=
  forall k1 k2 v, b !! k1 = Some v -> b !! k2 = Some v -> k1 = k2.

(** A call that, if it is for device [k], has not started or has finished
    with the address [v] or with the 500 of a failed lookup. *)
Definition answers_record (k : string) (v : IP) (c : Call) : Prop :=
  c_device c = k ->
  c_pc c = AtLookup
  \/ c_pc c = Done (plain StatusOK (String_ v))
  \/ c_pc c = Done (plain StatusInternalServerError "Database lookup failed.").

(** ** Theorems *)

Lemma incr_unsigned (b : byte) :
  byte.unsigned (Bytes.incr b) = (byte.unsigned b + 1) mod 256.
Proof. unfold Bytes.incr. now rewrite byte.unsigned_of_Z. Qed.

Lemma is_zero_incr (b : byte) :
  Bytes.is_zero (Bytes.incr b) = (byte.unsigned b =? 255).
Proof.
  unfold Bytes.is_zero. rewrite incr_unsigned.
  pose proof (byte.unsigned_range b) as Hb. change (2 ^ 8) with 256 in Hb.
  destruct (Z.eqb_spec (byte.unsigned b) 255) as [E | E].
  - rewrite E. reflexivity.
  - rewrite Z.mod_small by lia. apply Z.eqb_neq. lia.
Qed.

Lemma zero_unsigned : byte.unsigned Bytes.zero = 0.
Proof. reflexivity. Qed.

Lemma to_uint32_range (a : IP) : 0 <= to_uint32 a < 4294967296.
Proof.
  unfold to_uint32.
  pose proof (byte.unsigned_range (ip0 a)). pose proof (byte.unsigned_range (ip1 a)).
  pose proof (byte.unsigned_range (ip2 a)). pose proof (byte.unsigned_range (ip3 a)).
  change (2 ^ 8) with 256 in *. lia.
Qed.

Lemma to_uint32_inj (a b : IP) : to_uint32 a = to_uint32 b -> a = b.
Proof.
  destruct a as [a0 a1 a2 a3], b as [b0 b1 b2 b3]. unfold to_uint32; simpl.
  pose proof (byte.unsigned_range a0). pose proof (byte.unsigned_range a1).
  pose proof (byte.unsigned_range a2). pose proof (byte.unsigned_range a3).
  pose proof (byte.unsigned_range b0). pose proof (byte.unsigned_range b1).
  pose proof (byte.unsigned_range b2). pose proof (byte.unsigned_range b3).
  change (2 ^ 8) with 256 in *. intros E.
  assert (byte.unsigned a0 = byte.unsigned b0) by lia.
  assert (byte.unsigned a1 = byte.unsigned b1) by lia.
  assert (byte.unsigned a2 = byte.unsigned b2) by lia.
  assert (byte.unsigned a3 = byte.unsigned b3) by lia.
  f_equal; now apply byte.unsigned_inj.
Qed.

(** The successor as arithmetic on the big-endian value. *)
Lemma nextIP_to_uint32 (a : IP) :
  to_uint32 (nextIP a) = (to_uint32 a + 1) mod 4294967296.
Proof.
  destruct a as [a0 a1 a2 a3]. unfold nextIP; simpl.
  rewrite !is_zero_incr.
  pose proof (byte.unsigned_range a0). pose proof (byte.unsigned_range a1).
  pose proof (byte.unsigned_range a2). pose proof (byte.unsigned_range a3).
  change (2 ^ 8) with 256 in *.
  destruct (Z.eqb_spec (byte.unsigned a3) 255) as [E3 | E3];
    [destruct (Z.eqb_spec (byte.unsigned a2) 255) as [E2 | E2];
      [destruct (Z.eqb_spec (byte.unsigned a1) 255) as [E1 | E1] |] |];
    unfold to_uint32; simpl; rewrite ?incr_unsigned, ?zero_unsigned.
  - rewrite E1, E2, E3.
    destruct (Z.eq_dec (byte.unsigned a0) 255) as [E0 | E0].
    + rewrite E0. reflexivity.
    + rewrite (Z.mod_small (byte.unsigned a0 + 1)) by lia.
      rewrite (Z.mod_small _ 4294967296) by lia. lia.
  - rewrite E2, E3. rewrite (Z.mod_small (byte.unsigned a1 + 1)) by lia.
    rewrite (Z.mod_small _ 4294967296) by lia. lia.
  - rewrite E3. rewrite (Z.mod_small (byte.unsigned a2 + 1)) by lia.
    rewrite (Z.mod_small _ 4294967296) by lia. lia.
  - rewrite (Z.mod_small (byte.unsigned a3 + 1)) by lia.
    rewrite (Z.mod_small _ 4294967296) by lia. lia.
Qed.

(** *** [nextIP] byte by byte *)

Lemma is_zero_eq (b : byte) : Bytes.is_zero b = true -> b = Bytes.zero.
Proof.
  unfold Bytes.is_zero. intros E. apply Z.eqb_eq in E.
  apply byte.unsigned_inj. now rewrite E.
Qed.

Lemma nextIP_bytes (a : IP) :
  ip3 (nextIP a) = Bytes.incr (ip3 a)
  /\ ip2 (nextIP a) =
       (if byte.unsigned (ip3 a) =? 255 then Bytes.incr (ip2 a) else ip2 a)
  /\ ip1 (nextIP a) =
       (if (byte.unsigned (ip3 a) =? 255) && (byte.unsigned (ip2 a) =? 255)
        then Bytes.incr (ip1 a) else ip1 a)
  /\ ip0 (nextIP a) =
       (if (byte.unsigned (ip3 a) =? 255) && (byte.unsigned (ip2 a) =? 255)
           && (byte.unsigned (ip1 a) =? 255)
        then Bytes.incr (ip0 a) else ip0 a).
Proof.
  destruct a as [a0 a1 a2 a3]. unfold nextIP; simpl.
  pose proof (is_zero_eq (Bytes.incr a3)) as Z3.
  pose proof (is_zero_eq (Bytes.incr a2)) as Z2.
  pose proof (is_zero_eq (Bytes.incr a1)) as Z1.
  rewrite is_zero_incr in Z3, Z2, Z1. rewrite !is_zero_incr.
  destruct (byte.unsigned a3 =? 255); simpl; [| now auto].
  destruct (byte.unsigned a2 =? 255); simpl; [| now rewrite Z3].
  destruct (byte.unsigned a1 =? 255); simpl.
  - now rewrite Z3, Z2, Z1.
  - now rewrite Z3, Z2.
Qed.

(** C4. For every 4-byte address the successor [nextIP] increments the
    least significant byte and carries into the next more significant byte
    exactly when a byte wraps from 255 to 0, through all four bytes; it is a
    total function (no error result), equal to addition of one modulo 2^32
    on the big-endian value. In particular the successor of 10.8.0.255 is
    10.8.1.0, of 10.255.255.255 is 11.0.0.0 and of 255.255.255.255 is
    0.0.0.0. *)
Theorem nextIP_successor :
  (forall a : IP, to_uint32 (nextIP a) = (to_uint32 a + 1) mod 2 ^ 32)
  /\ (forall a : IP,
        ip3 (nextIP a) = Bytes.incr (ip3 a)
        /\ ip2 (nextIP a) =
             (if byte.unsigned (ip3 a) =? 255 then Bytes.incr (ip2 a) else ip2 a)
        /\ ip1 (nextIP a) =
             (if (byte.unsigned (ip3 a) =? 255) && (byte.unsigned (ip2 a) =? 255)
              then Bytes.incr (ip1 a) else ip1 a)
        /\ ip0 (nextIP a) =
             (if (byte.unsigned (ip3 a) =? 255) && (byte.unsigned (ip2 a) =? 255)
                 && (byte.unsigned (ip1 a) =? 255)
              then Bytes.incr (ip0 a) else ip0 a))
  /\ nextIP (dotted 10 8 0 255) = dotted 10 8 1 0
  /\ nextIP (dotted 10 255 255 255) = dotted 11 0 0 0
  /\ nextIP (dotted 255 255 255 255) = dotted 0 0 0 0.
Proof.
  split; [| split; [| repeat split]].
  - intros a. change (2 ^ 32) with 4294967296. apply nextIP_to_uint32.
  - apply nextIP_bytes.
Qed.

(** *** [bytes.Compare] on addresses *)

Lemma Compare_slice (a b : IP) :
  Bytes.Compare (slice a) (slice b) =
  match to_uint32 a ?= to_uint32 b with Lt => -1 | Eq => 0 | Gt => 1 end.
Proof.
  destruct a as [a0 a1 a2 a3], b as [b0 b1 b2 b3]. unfold to_uint32, slice; simpl.
  pose proof (byte.unsigned_range a0). pose proof (byte.unsigned_range a1).
  pose proof (byte.unsigned_range a2). pose proof (byte.unsigned_range a3).
  pose proof (byte.unsigned_range b0). pose proof (byte.unsigned_range b1).
  pose proof (byte.unsigned_range b2). pose proof (byte.unsigned_range b3).
  change (2 ^ 8) with 256 in *.
  repeat match goal with
         | |- context [?x <? ?y] => destruct (Z.ltb_spec x y)
         end;
    match goal with
    | |- _ = match ?x ?= ?y with _ => _ end => destruct (Z.compare_spec x y)
    end; try reflexivity; exfalso; lia.
Qed.

Lemma Compare_eq_0 (a b : IP) :
  (Bytes.Compare (slice a) (slice b) =? 0) = true <-> a = b.
Proof.
  rewrite Compare_slice. split.
  - destruct (Z.compare_spec (to_uint32 a) (to_uint32 b)) as [E | E | E];
      intros H; try discriminate. now apply to_uint32_inj.
  - intros ->. now rewrite Z.compare_refl.
Qed.

Lemma Compare_ge_0 (a b : IP) :
  (Bytes.Compare (slice a) (slice b) >=? 0) = (to_uint32 b <=? to_uint32 a).
Proof.
  rewrite Compare_slice.
  destruct (Z.compare_spec (to_uint32 a) (to_uint32 b));
    destruct (Z.leb_spec (to_uint32 b) (to_uint32 a)); try reflexivity; lia.
Qed.

(** *** The cases of [ServeGet] *)

Lemma handler_eta (h : Handler) : mkHandler (db h) (next h) = h.
Proof. now destruct h. Qed.

Lemma Put_valid (b : gmap string IP) (key : string) (v : IP) :
  Bolt.Put b key v =
  if Bolt.valid_key key then inr (<[key := v]> b)
  else inl (if Z.of_nat (String.length key) =? 0
            then Bolt.ErrKeyRequired else Bolt.ErrKeyTooLarge).
Proof.
  unfold Bolt.Put, Bolt.valid_key.
  destruct (Z.of_nat (String.length key) =? 0); simpl; [reflexivity |].
  now destruct (Bolt.MaxKeySize <? Z.of_nat (String.length key)).
Qed.

(** A device with a record. *)
Lemma ServeGet_found (f : Faults) (h : Handler) (d : string) (a : IP) :
  db h !! d = Some a ->
  ServeGet f h d =
  (match tx1 f with
   | Bolt.NoFault => plain StatusOK (String_ a)
   | _ => plain StatusInternalServerError "Database lookup failed."
   end, h).
Proof.
  intros Hd. unfold ServeGet, Bolt.Update, Bolt.Get. rewrite Hd.
  destruct (tx1 f); cbn -[String_]; now rewrite handler_eta.
Qed.

(** A device without a record. *)
Lemma ServeGet_unseen (f : Faults) (h : Handler) (d : string) :
  db h !! d = None ->
  ServeGet f h d =
  match tx1 f with
  | Bolt.NoFault =>
      if Bytes.Compare (slice (next h)) (slice fin) =? 0 then
        (plain StatusInternalServerError "Ran out of IP addresses.", h)
      else
        match tx2 f with
        | Bolt.NoFault =>
            if Bolt.valid_key d then
              (plain StatusOK (String_ (next h)),
               mkHandler (<[d := next h]> (db h)) (nextIP (next h)))
            else (plain StatusInternalServerError "Database write failed.", h)
        | _ => (plain StatusInternalServerError "Database write failed.", h)
        end
  | _ => (plain StatusInternalServerError "Database lookup failed.", h)
  end.
Proof.
  intros Hd. unfold ServeGet, Bolt.Update, Bolt.Get. rewrite Hd.
  destruct (tx1 f); cbn -[Bytes.Compare String_ nextIP Bolt.Put];
    rewrite ?handler_eta; try reflexivity.
  destruct (Bytes.Compare (slice (next h)) (slice fin) =? 0); [reflexivity |].
  rewrite Put_valid.
  destruct (tx2 f), (Bolt.valid_key d); cbn -[String_ nextIP];
    rewrite ?handler_eta; reflexivity.
Qed.

(** Whatever the store does, [ServeGet] either leaves the handler as it was
    or performs one complete allocation for a device without a record. *)
Lemma ServeGet_cases (f : Faults) (h : Handler) (d : string) :
  snd (ServeGet f h d) = h
  \/ (db h !! d = None /\ next h <> fin /\ Bolt.valid_key d = true
      /\ ServeGet f h d =
         (plain StatusOK (String_ (next h)),
          mkHandler (<[d := next h]> (db h)) (nextIP (next h)))).
Proof.
  destruct (db h !! d) as [a |] eqn:Hd.
  - left. now rewrite (ServeGet_found f h d a Hd).
  - rewrite (ServeGet_unseen f h d Hd).
    destruct (tx1 f); try (now left).
    destruct (Bytes.Compare (slice (next h)) (slice fin) =? 0) eqn:Hc; [now left |].
    destruct (tx2 f); try (now left).
    destruct (Bolt.valid_key d) eqn:Hk; [| now left].
    right. repeat split; try reflexivity.
    intros E. apply Compare_eq_0 in E. congruence.
Qed.

(** *** The other operations leave the bucket alone *)

Lemma ServeAll_state (f : Faults) (h : Handler) : snd (ServeAll f h) = h.
Proof.
  unfold ServeAll, Bolt.Update.
  destruct (tx1 f); cbn -[String_]; apply handler_eta.
Qed.

Lemma main_db (f : Bolt.TxFault) (b : gmap string IP) : db (main f b) = b.
Proof. unfold main, Bolt.Update. now destruct f. Qed.

Lemma ServeHTTP_dispatch (f : Faults) (h : Handler) (path : string) :
  ServeHTTP f h path =
  match requested_device path with
  | Some d => ServeGet f h d
  | None =>
      if String.eqb path "/all" then ServeAll f h
      else (plain StatusNotFound "Not found.", h)
  end.
Proof.
  unfold ServeHTTP, requested_device.
  destruct (String.eqb path "/all"); [reflexivity |].
  now destruct (Strings.HasPrefix path "/get/").
Qed.

Lemma ServeHTTP_cases (f : Faults) (h : Handler) (path : string) :
  snd (ServeHTTP f h path) = h
  \/ (exists d, requested_device path = Some d
      /\ db h !! d = None /\ next h <> fin /\ Bolt.valid_key d = true
      /\ ServeHTTP f h path =
         (plain StatusOK (String_ (next h)),
          mkHandler (<[d := next h]> (db h)) (nextIP (next h)))).
Proof.
  rewrite ServeHTTP_dispatch.
  destruct (requested_device path) as [d |] eqn:Hp.
  - destruct (ServeGet_cases f h d) as [E | E]; [now left | right; now exists d].
  - left. destruct (String.eqb path "/all"); [apply ServeAll_state | reflexivity].
Qed.

Lemma ServeHTTP_keeps_record (f : Faults) (h : Handler) (path d : string) (a : IP) :
  db h !! d = Some a -> db (snd (ServeHTTP f h path)) !! d = Some a.
Proof.
  intros Hd. destruct (ServeHTTP_cases f h path) as [E | (d' & _ & Hn & _ & _ & E)].
  - now rewrite E.
  - rewrite E. simpl. rewrite lookup_insert_ne; [assumption | congruence].
Qed.

Lemma apply_op_keeps_record (h : Handler) (o : Op) (d : string) (a : IP) :
  db h !! d = Some a -> db (apply_op h o) !! d = Some a.
Proof.
  destruct o as [r | f]; simpl.
  - apply ServeHTTP_keeps_record.
  - now rewrite main_db.
Qed.

Lemma serve_keeps_record (rs : list Request) (h : Handler) (d : string) (a : IP) :
  db h !! d = Some a -> db (snd (serve h rs)) !! d = Some a.
Proof.
  revert h. induction rs as [| r rs IH]; intros h Hd; simpl; [assumption |].
  pose proof (ServeHTTP_keeps_record (faults r) h (Path r) d a Hd) as Hk.
  destruct (ServeHTTP (faults r) h (Path r)) as [resp h'].
  specialize (IH h' Hk). destruct (serve h' rs) as [tr h'']. exact IH.
Qed.

(** X18. With requests served one after the other: once a device has a
    record, every resolution of it answers with the address of that record,
    whatever requests were served in between and wherever the cursor stands
    (also at [fin], when the pool is exhausted), and leaves the handler as
    it was. The one other answer a call can give is the 500 of a lookup
    transaction that the store failed to run or commit; that changes
    nothing either. *)
Theorem resolve_recorded_device_stable
    (h : Handler) (d : string) (a : IP) (rs : list Request) (f : Faults) :
  db h !! d = Some a ->
  let h' := snd (serve h rs) in
  ServeGet f h' d =
  (match tx1 f with
   | Bolt.NoFault => plain StatusOK (String_ a)
   | _ => plain StatusInternalServerError "Database lookup failed."
   end, h').
Proof.
  intros Hd h'. apply ServeGet_found. now apply serve_keeps_record.
Qed.

Lemma resolve_recorded_device_stable_witness :
  let h := mkHandler {[ "a"%string := dotted 10 8 0 2 ]} fin in
  let rs := [mkRequest "/get/b" no_faults; mkRequest "/all" no_faults] in
  db h !! "a"%string = Some (dotted 10 8 0 2)
  /\ ServeGet no_faults (snd (serve h rs)) "a"
     = (plain StatusOK (String_ (dotted 10 8 0 2)), snd (serve h rs)).
Proof.
  intros h rs. split; [reflexivity |].
  apply (resolve_recorded_device_stable h "a" (dotted 10 8 0 2) rs no_faults).
  reflexivity.
Defined.



(** C6. When the transaction that writes the record of an unseen device
    fails, the answer is the 500 "Database write failed." and bucket and
    cursor are what they were; the cursor moves (to its successor) only
    together with a committed record. *)
Theorem failed_write_changes_nothing (f : Faults) (h : Handler) (d : string) :
  db h !! d = None ->
  tx1 f = Bolt.NoFault ->
  next h <> fin ->
  (write_fails f d ->
     ServeGet f h d = (plain StatusInternalServerError "Database write failed.", h))
  /\ (next (snd (ServeGet f h d)) <> next h ->
        next (snd (ServeGet f h d)) = nextIP (next h)
        /\ db (snd (ServeGet f h d)) = <[d := next h]> (db h)
        /\ fst (ServeGet f h d) = plain StatusOK (String_ (next h))).
Proof.
  intros Hd Hf Hn. split.
  - intros Hw. rewrite (ServeGet_unseen f h d Hd), Hf.
    destruct (Bytes.Compare (slice (next h)) (slice fin) =? 0) eqn:Hc.
    { apply Compare_eq_0 in Hc. contradiction. }
    destruct Hw as [Hw | Hw].
    + destruct (tx2 f); [contradiction | reflexivity | reflexivity].
    + rewrite Hw. now destruct (tx2 f).
  - intros Hm. destruct (ServeGet_cases f h d) as [E | (_ & _ & _ & E)].
    + rewrite E in Hm. contradiction.
    + rewrite E. repeat split; reflexivity.
Qed.

Lemma failed_write_changes_nothing_witness :
  let h := mkHandler ∅ ini in
  let f := mkFaults Bolt.NoFault Bolt.CommitFails in
  write_fails f "a"
  /\ ServeGet f h "a" = (plain StatusInternalServerError "Database write failed.", h).
Proof.
  intros h f.
  assert (Hw : write_fails f "a") by (left; discriminate).
  split; [exact Hw |].
  apply (failed_write_changes_nothing f h "a"); try reflexivity; try exact Hw.
  vm_compute. discriminate.
Defined.

(** X20. With requests and restarts carried out one after the other: a
    record, once in the bucket, stays there with its address, no sequence
    of them changes or removes it. Resolving a recorded device changes
    nothing at all, and neither do listing and the start-up scan change the
    bucket. *)
Theorem records_are_immutable (h : Handler) (d : string) (a : IP) :
  db h !! d = Some a ->
  (forall ops : list Op, db (fold_left apply_op ops h) !! d = Some a)
  /\ (forall f, snd (ServeGet f h d) = h)
  /\ (forall f, snd (ServeAll f h) = h)
  /\ (forall f, db (main f (db h)) = db h).
Proof.
  intros Hd. repeat split.
  - intros ops. revert h Hd. induction ops as [| o ops IH]; intros h Hd; simpl.
    + assumption.
    + apply IH. now apply apply_op_keeps_record.
  - intros f. now rewrite (ServeGet_found f h d a Hd).
  - intros f. apply ServeAll_state.
  - intros f. apply main_db.
Qed.

Lemma records_are_immutable_witness :
  let h := mkHandler {[ "a"%string := dotted 10 8 0 2 ]} (dotted 10 8 0 3) in
  let ops := [OpRequest (mkRequest "/get/a" no_faults);
              OpRequest (mkRequest "/get/b" no_faults);
              OpRestart Bolt.NoFault;
              OpRequest (mkRequest "/all" no_faults)] in
  db h !! "a"%string = Some (dotted 10 8 0 2)
  /\ db (fold_left apply_op ops h) !! "a"%string = Some (dotted 10 8 0 2).
Proof.
  intros h ops. split; [reflexivity |].
  apply (records_are_immutable h "a" (dotted 10 8 0 2)). reflexivity.
Defined.

(** *** Dotted decimal is injective *)

Lemma read_uitoa_dot (b : byte) (r : string) :
  read_decimal 0 (uitoa (byte.unsigned b) ++ String "." r) = (byte.unsigned b, String "." r).
Proof. destruct b; reflexivity. Qed.

Lemma read_uitoa_end (b : byte) :
  read_decimal 0 (uitoa (byte.unsigned b)) = (byte.unsigned b, EmptyString).
Proof. destruct b; reflexivity. Qed.

Lemma String_inj (a b : IP) : String_ a = String_ b -> a = b.
Proof.
  destruct a as [a0 a1 a2 a3], b as [b0 b1 b2 b3]. unfold String_; simpl ip0; simpl ip1;
    simpl ip2; simpl ip3.
  change (append "." ?r) with (String "." r).
  intros E.
  pose proof (f_equal (read_decimal 0) E) as E0. rewrite !read_uitoa_dot in E0.
  injection E0 as E0 E1. change (append "." ?r) with (String "." r) in E1.
  pose proof (f_equal (read_decimal 0) E1) as E1'. rewrite !read_uitoa_dot in E1'.
  injection E1' as E1' E2. change (append "." ?r) with (String "." r) in E2.
  pose proof (f_equal (read_decimal 0) E2) as E2'. rewrite !read_uitoa_dot in E2'.
  injection E2' as E2' E3.
  pose proof (f_equal (read_decimal 0) E3) as E3'. rewrite !read_uitoa_end in E3'.
  injection E3' as E3'.
  f_equal; now apply byte.unsigned_inj.
Qed.

(** *** First-time allocations along a run *)

Lemma to_uint32_ini : to_uint32 ini = 168296450.
Proof. reflexivity. Qed.

Lemma to_uint32_fin : to_uint32 fin = 173867007.
Proof. reflexivity. Qed.

Lemma nextIP_nowrap (a : IP) :
  to_uint32 a < 4294967295 -> to_uint32 (nextIP a) = to_uint32 a + 1.
Proof.
  intros Ha. rewrite nextIP_to_uint32. pose proof (to_uint32_range a).
  apply Z.mod_small. lia.
Qed.

(** A request either is no first-time allocation and leaves the handler
    alone, or hands out the cursor, records it and moves the cursor on. *)
Lemma fresh_alloc_cases (f : Faults) (h : Handler) (path : string) :
  (fresh_alloc (h, mkRequest path f, fst (ServeHTTP f h path)) = None
   /\ snd (ServeHTTP f h path) = h)
  \/ (exists d,
        fresh_alloc (h, mkRequest path f, fst (ServeHTTP f h path))
        = Some (d, Text (String_ (next h)))
        /\ db h !! d = None /\ next h <> fin
        /\ snd (ServeHTTP f h path)
           = mkHandler (<[d := next h]> (db h)) (nextIP (next h))).
Proof.
  rewrite ServeHTTP_dispatch. unfold fresh_alloc. cbn [Path].
  destruct (requested_device path) as [d |] eqn:Hp.
  - destruct (db h !! d) as [a |] eqn:Hd.
    + left. split; [reflexivity |]. now rewrite (ServeGet_found f h d a Hd).
    + rewrite (ServeGet_unseen f h d Hd).
      destruct (tx1 f); try (left; split; reflexivity).
      destruct (Bytes.Compare (slice (next h)) (slice fin) =? 0) eqn:Hc;
        [left; split; reflexivity |].
      destruct (tx2 f); try (left; split; reflexivity).
      destruct (Bolt.valid_key d); [| left; split; reflexivity].
      right. exists d. split; [reflexivity |]. split; [exact Hd |].
      split; [| reflexivity].
      intros E. apply Compare_eq_0 in E. congruence.
  - left. split; [reflexivity |].
    destruct (String.eqb path "/all"); [apply ServeAll_state | reflexivity].
Qed.

Lemma serve_cons (h : Handler) (r : Request) (rs : list Request) :
  serve h (r :: rs) =
  ((h, r, fst (ServeHTTP (faults r) h (Path r)))
     :: fst (serve (snd (ServeHTTP (faults r) h (Path r))) rs),
   snd (serve (snd (ServeHTTP (faults r) h (Path r))) rs)).
Proof.
  simpl. destruct (ServeHTTP (faults r) h (Path r)) as [resp h']. simpl.
  now destruct (serve h' rs).
Qed.

Lemma fresh_allocs_cons (e : Handler * Request * Response)
    (tr : list (Handler * Request * Response)) :
  fresh_allocs (e :: tr) =
  match fresh_alloc e with
  | Some x => x :: fresh_allocs tr
  | None => fresh_allocs tr
  end.
Proof. reflexivity. Qed.

(** From a cursor in range, the first-time allocations of a run hand out
    the cursor, its successor, and so on, in this order. *)
Lemma serve_fresh_allocs (rs : list Request) :
  forall h : Handler,
    cursor_in_range h ->
    exists addrs : list IP,
      map snd (fresh_allocs (fst (serve h rs))) = map (fun a => Text (String_ a)) addrs
      /\ (forall (i : nat) a, addrs !! i = Some a ->
            to_uint32 a = to_uint32 (next h) + Z.of_nat i)
      /\ to_uint32 (next (snd (serve h rs)))
         = to_uint32 (next h) + Z.of_nat (length addrs)
      /\ cursor_in_range (snd (serve h rs)).
Proof.
  induction rs as [| r rs IH]; intros h Hr.
  - exists []. simpl. split; [reflexivity |]. split; [intros i a Ha; discriminate |].
    split; [lia | exact Hr].
  - destruct r as [path f]. rewrite serve_cons. cbn [fst snd Path faults].
    rewrite fresh_allocs_cons.
    destruct (fresh_alloc_cases f h path) as [[E1 E2] | (d & E1 & Hd & Hn & E2)];
      rewrite E1, E2.
    + apply IH. assumption.
    + assert (Hlt : to_uint32 (next h) < to_uint32 fin).
      { destruct Hr as [_ Hr].
        assert (to_uint32 (next h) <> to_uint32 fin)
          by (intros E; apply Hn; now apply to_uint32_inj).
        lia. }
      assert (Hs : to_uint32 (nextIP (next h)) = to_uint32 (next h) + 1).
      { apply nextIP_nowrap. rewrite to_uint32_fin in Hlt. lia. }
      destruct (IH (mkHandler (<[d := next h]> (db h)) (nextIP (next h))))
        as (addrs & Hm & Hi & Hc & Hr').
      { unfold cursor_in_range in *. cbn [next]. lia. }
      cbn [next] in *.
      exists (next h :: addrs). split; [| split; [| split]].
      * cbn [map snd]. now rewrite Hm.
      * intros [| i] a Ha; simpl in Ha.
        -- injection Ha as <-. lia.
        -- rewrite (Hi i a Ha). lia.
      * rewrite Hc. cbn [length]. lia.
      * exact Hr'.
Qed.

Lemma consecutive_sorted (addrs : list IP) :
  forall n : Z,
    (forall (i : nat) a, addrs !! i = Some a -> to_uint32 a = n + Z.of_nat i) ->
    StronglySorted (fun a b => to_uint32 a < to_uint32 b) addrs.
Proof.
  induction addrs as [| a addrs IH]; intros n Hi; constructor.
  - apply (IH (n + 1)). intros i x Hx. rewrite (Hi (S i) x Hx). lia.
  - apply Forall_forall. intros x Hx.
    apply list_elem_of_lookup in Hx. destruct Hx as [i Hx].
    rewrite (Hi 0%nat a eq_refl), (Hi (S i) x Hx). lia.
Qed.

(** X19. Served one request after the other from an empty bucket and the
    cursor at [ini], the first-time allocations return addresses that are
    strictly increasing as big-endian 32-bit integers and start at [ini];
    two of them for different devices never return the same address. *)
Theorem fresh_allocations_strictly_increasing (rs : list Request) :
  let fresh := fresh_allocs (fst (serve (mkHandler ∅ ini) rs)) in
  (exists addrs : list IP,
     map snd fresh = map (fun a => Text (String_ a)) addrs
     /\ StronglySorted (fun a b => to_uint32 a < to_uint32 b) addrs
     /\ (forall a, head addrs = Some a -> a = ini))
  /\ (forall (i j : nat) d1 d2 b1 b2,
        fresh !! i = Some (d1, b1) -> fresh !! j = Some (d2, b2) ->
        d1 <> d2 -> b1 <> b2).
Proof.
  intros fresh.
  destruct (serve_fresh_allocs rs (mkHandler ∅ ini)) as (addrs & Hm & Hi & _ & _).
  { unfold cursor_in_range. cbn [next]. rewrite to_uint32_ini, to_uint32_fin. lia. }
  fold fresh in Hm. cbn [next] in Hi. split.
  - exists addrs. split; [exact Hm |]. split.
    + exact (consecutive_sorted addrs _ Hi).
    + intros a Ha. destruct addrs as [| a' addrs]; [discriminate |].
      injection Ha as ->. apply to_uint32_inj. rewrite (Hi 0%nat a eq_refl). lia.
  - intros i j d1 d2 b1 b2 H1 H2 Hd Hb.
    assert (Hb1 : map snd fresh !! i = Some b1) by (now rewrite list_lookup_fmap, H1).
    assert (Hb2 : map snd fresh !! j = Some b2) by (now rewrite list_lookup_fmap, H2).
    rewrite Hm, list_lookup_fmap in Hb1, Hb2.
    destruct (addrs !! i) as [a1 |] eqn:A1; [| discriminate].
    destruct (addrs !! j) as [a2 |] eqn:A2; [| discriminate].
    simpl in Hb1, Hb2. injection Hb1 as <-. injection Hb2 as <-.
    injection Hb as Hb. apply String_inj in Hb. subst a2.
    pose proof (Hi i a1 A1). pose proof (Hi j a1 A2).
    assert (i = j) by lia. subst j. congruence.
Qed.

Lemma fresh_allocations_strictly_increasing_witness :
  let rs := [mkRequest "/get/a" no_faults; mkRequest "/get/b" no_faults;
             mkRequest "/get/a" no_faults] in
  fresh_allocs (fst (serve (mkHandler ∅ ini) rs))
  = [("a"%string, Text "10.8.0.2"); ("b"%string, Text "10.8.0.3")]
  /\ Text "10.8.0.2" <> Text "10.8.0.3".
Proof.
  intros rs. split; [vm_compute; reflexivity |].
  apply (proj2 (fresh_allocations_strictly_increasing rs) 0%nat 1%nat "a"%string "b"%string).
  - vm_compute. reflexivity.
  - vm_compute. reflexivity.
  - discriminate.
Defined.

(** *** The start-up scan *)

Lemma scan_step_nowrap (n : IP) (kv : string * IP) :
  to_uint32 (snd kv) < 4294967295 ->
  to_uint32 (scan_step n kv) = Z.max (to_uint32 n) (to_uint32 (snd kv) + 1).
Proof.
  intros Hv. unfold scan_step, To4, IPv4. rewrite Compare_ge_0.
  replace (mkIP (ip0 (snd kv)) (ip1 (snd kv)) (ip2 (snd kv)) (ip3 (snd kv)))
    with (snd kv) by (now destruct (snd kv)).
  destruct (Z.leb_spec (to_uint32 n) (to_uint32 (snd kv))).
  - rewrite nextIP_nowrap by assumption. lia.
  - lia.
Qed.

Lemma scan_step_below (n : IP) (kv : string * IP) :
  to_uint32 (snd kv) < to_uint32 n -> scan_step n kv = n.
Proof.
  intros Hv. unfold scan_step, To4. rewrite Compare_ge_0.
  destruct (Z.leb_spec (to_uint32 n) (to_uint32 (snd kv))); [lia | reflexivity].
Qed.

(** Without wrap-around the scan computes a maximum: its result is above
    the start and above every successor of a record, and it is one of
    them. *)
Lemma scan_bounds (l : list (string * IP)) :
  forall n : IP,
    (forall kv, kv ∈ l -> to_uint32 (snd kv) < 4294967295) ->
    to_uint32 n <= to_uint32 (scan n l)
    /\ (forall kv, kv ∈ l -> to_uint32 (snd kv) + 1 <= to_uint32 (scan n l))
    /\ (scan n l = n
        \/ exists kv, kv ∈ l /\ to_uint32 (scan n l) = to_uint32 (snd kv) + 1).
Proof.
  induction l as [| kv l IH]; intros n Hl.
  - simpl. split; [lia |]. split; [| now left].
    intros kv Hkv. apply elem_of_nil in Hkv. contradiction.
  - change (scan n (kv :: l)) with (scan (scan_step n kv) l).
    assert (Hkv : to_uint32 (snd kv) < 4294967295) by (apply Hl; left).
    pose proof (scan_step_nowrap n kv Hkv) as Hs.
    destruct (IH (scan_step n kv)) as (H1 & H2 & H3).
    { intros x Hx. apply Hl. now right. }
    split; [lia |]. split.
    + intros x Hx. apply elem_of_cons in Hx. destruct Hx as [-> | Hx]; [lia | now apply H2].
    + destruct H3 as [H3 | (x & Hx & H3)].
      * rewrite H3. destruct (Z.max_spec (to_uint32 n) (to_uint32 (snd kv) + 1)) as [[_ E] | [_ E]].
        -- right. exists kv. split; [left | lia].
        -- left. apply to_uint32_inj. lia.
      * right. exists x. split; [now right | exact H3].
Qed.

(** With the highest record at or above the start, and not the all-ones
    address, the scan ends on its successor. *)
Lemma scan_max (l : list (string * IP)) (n m : IP) :
  (exists k, (k, m) ∈ l) ->
  (forall kv, kv ∈ l -> to_uint32 (snd kv) <= to_uint32 m) ->
  to_uint32 n <= to_uint32 m < 4294967295 ->
  scan n l = nextIP m.
Proof.
  intros [k Hk] Hmax Hm.
  destruct (scan_bounds l n) as (H1 & H2 & H3).
  { intros kv Hkv. specialize (Hmax kv Hkv). lia. }
  specialize (H2 (k, m) Hk). simpl in H2.
  apply to_uint32_inj. rewrite nextIP_nowrap by lia.
  destruct H3 as [H3 | (x & Hx & H3)].
  - rewrite H3 in H2. lia.
  - specialize (Hmax x Hx). lia.
Qed.

(** Records below the start do not move the cursor. *)
Lemma scan_below (l : list (string * IP)) (n : IP) :
  (forall kv, kv ∈ l -> to_uint32 (snd kv) < to_uint32 n) -> scan n l = n.
Proof.
  induction l as [| kv l IH]; intros Hl; [reflexivity |].
  change (scan n (kv :: l)) with (scan (scan_step n kv) l).
  rewrite scan_step_below by (apply Hl; left).
  apply IH. intros x Hx. apply Hl. now right.
Qed.

Lemma main_next (b : gmap string IP) :
  next (main Bolt.NoFault b) = scan ini (Bolt.Cursor b).
Proof. reflexivity. Qed.

Lemma Cursor_Permutation (b : gmap string IP) : Bolt.Cursor b ≡ₚ map_to_list b.
Proof. apply merge_sort_Permutation. Qed.

Lemma is_max_record_list (b : gmap string IP) (m : IP) (l : list (string * IP)) :
  is_max_record b m ->
  l ≡ₚ map_to_list b ->
  (exists k, (k, m) ∈ l)
  /\ (forall kv, kv ∈ l -> to_uint32 (snd kv) <= to_uint32 m).
Proof.
  intros [[k Hk] Hmax] Hp. split.
  - exists k. rewrite Hp. now apply elem_of_map_to_list.
  - intros [k' v] Hkv. rewrite Hp in Hkv. apply elem_of_map_to_list in Hkv.
    simpl. now apply (Hmax k').
Qed.

Lemma is_max_record_singleton (k : string) (v : IP) :
  is_max_record {[ k := v ]} v.
Proof.
  split.
  - exists k. apply lookup_singleton_eq.
  - intros k' v' Hkv. apply lookup_singleton_Some in Hkv. destruct Hkv as [_ <-]. lia.
Qed.

Lemma recovery_scan_max (b : gmap string IP) (m : IP) :
  is_max_record b m ->
  to_uint32 ini <= to_uint32 m < 4294967295 ->
  next (main Bolt.NoFault b) = nextIP m
  /\ forall l, l ≡ₚ map_to_list b -> scan ini l = nextIP m.
Proof.
  intros Hmax Hm.
  assert (Hany : forall l, l ≡ₚ map_to_list b -> scan ini l = nextIP m).
  { intros l Hp. destruct (is_max_record_list b m l Hmax Hp) as [Hk Hle].
    now apply scan_max. }
  split; [| exact Hany]. rewrite main_next. apply Hany, Cursor_Permutation.
Qed.

(** C3, as the code has it. When the highest recorded address is at least
    [ini] and is not 255.255.255.255, the cursor after the start-up scan is
    the successor of that address, in whatever order the records are
    scanned, and scanning the records once more from that cursor (or
    running the recovery again) does not move it. With an empty bucket,
    and also when every record lies below [ini], the cursor is [ini]. *)
Theorem recovery_cursor (b : gmap string IP) :
  (b = ∅ -> next (main Bolt.NoFault b) = ini)
  /\ (forall m : IP,
        is_max_record b m ->
        to_uint32 ini <= to_uint32 m < 4294967295 ->
        next (main Bolt.NoFault b) = nextIP m
        /\ (forall l, l ≡ₚ map_to_list b -> scan ini l = nextIP m)
        /\ (forall l, l ≡ₚ map_to_list b -> scan (scan ini l) l = scan ini l)
        /\ main Bolt.NoFault (db (main Bolt.NoFault b)) = main Bolt.NoFault b)
  /\ ((forall k v, b !! k = Some v -> to_uint32 v < to_uint32 ini) ->
      next (main Bolt.NoFault b) = ini).
Proof.
  split; [| split].
  - intros ->. reflexivity.
  - intros m Hmax Hm.
    destruct (recovery_scan_max b m Hmax Hm) as [Hmain Hany].
    split; [exact Hmain | split; [exact Hany | split]].
    + intros l Hp. rewrite (Hany l Hp).
      destruct (is_max_record_list b m l Hmax Hp) as [_ Hle].
      apply scan_below. intros kv Hkv. specialize (Hle kv Hkv).
      rewrite nextIP_nowrap by lia. lia.
    + now rewrite main_db.
  - intros Hlow. rewrite main_next. apply scan_below.
    intros [k v] Hkv. rewrite Cursor_Permutation in Hkv.
    apply elem_of_map_to_list in Hkv. simpl. now apply (Hlow k).
Qed.

Lemma recovery_cursor_witness :
  let b : gmap string IP := {[ "a"%string := dotted 10 8 0 5 ]} in
  is_max_record b (dotted 10 8 0 5)
  /\ to_uint32 ini <= to_uint32 (dotted 10 8 0 5) < 4294967295
  /\ next (main Bolt.NoFault b) = nextIP (dotted 10 8 0 5).
Proof.
  intros b.
  assert (Hm : is_max_record b (dotted 10 8 0 5)) by apply is_max_record_singleton.
  assert (Hr : to_uint32 ini <= to_uint32 (dotted 10 8 0 5) < 4294967295)
    by (vm_compute; split; [discriminate | reflexivity]).
  split; [exact Hm | split; [exact Hr |]].
  exact (proj1 (proj1 (proj2 (recovery_cursor b)) (dotted 10 8 0 5) Hm Hr)).
Defined.

(** C3 does not hold for every set of records. A bucket whose only record
    is 10.8.0.0, below [ini], is not empty, yet the scan leaves the cursor
    at [ini] = 10.8.0.2, which is not the successor 10.8.0.1 of the highest
    record. And with a record at 255.255.255.255 the order of the scan
    matters: the successor wraps to 0.0.0.0, so a record scanned after it
    moves the cursor again. *)
Lemma recovery_cursor_counterexample :
  (let b : gmap string IP := {[ "a"%string := dotted 10 8 0 0 ]} in
   b <> ∅
   /\ is_max_record b (dotted 10 8 0 0)
   /\ next (main Bolt.NoFault b) = dotted 10 8 0 2
   /\ nextIP (dotted 10 8 0 0) = dotted 10 8 0 1
   /\ next (main Bolt.NoFault b) <> nextIP (dotted 10 8 0 0))
  /\ (let l1 := [("a"%string, dotted 255 255 255 255); ("b"%string, dotted 10 8 0 5)] in
      let l2 := [("b"%string, dotted 10 8 0 5); ("a"%string, dotted 255 255 255 255)] in
      l1 ≡ₚ l2
      /\ scan ini l1 = dotted 10 8 0 6
      /\ scan ini l2 = dotted 0 0 0 0
      /\ scan ini l1 <> scan ini l2).
Proof.
  split.
  - cbn zeta. split; [| split; [| split; [| split]]].
    + intros E. apply (f_equal (fun m : gmap string IP => m !! "a"%string)) in E.
      rewrite lookup_singleton_eq, lookup_empty in E. discriminate.
    + apply is_max_record_singleton.
    + vm_compute. reflexivity.
    + vm_compute. reflexivity.
    + vm_compute. discriminate.
  - cbn zeta. split; [| split; [| split]].
    + apply Permutation_swap.
    + vm_compute. reflexivity.
    + vm_compute. reflexivity.
    + vm_compute. discriminate.
Qed.

(** *** Allocation around [fin] *)

Lemma serve_invariant (P : Handler -> Prop) :
  (forall f h path, P h -> P (snd (ServeHTTP f h path))) ->
  forall rs h, P h -> P (snd (serve h rs)).
Proof.
  intros Hstep. induction rs as [| r rs IH]; intros h Hh; [exact Hh |].
  rewrite serve_cons. cbn [snd]. apply IH, Hstep, Hh.
Qed.

Lemma main_cursor_in_range (f : Bolt.TxFault) (b : gmap string IP) :
  (forall k v, b !! k = Some v -> to_uint32 v < to_uint32 fin) ->
  cursor_in_range (main f b).
Proof.
  intros Hb. unfold cursor_in_range.
  assert (Hs : to_uint32 ini <= to_uint32 (scan ini (Bolt.Cursor b)) <= to_uint32 fin).
  { assert (Hl : forall kv, kv ∈ Bolt.Cursor b -> to_uint32 (snd kv) < to_uint32 fin).
    { intros [k v] Hkv. rewrite Cursor_Permutation in Hkv.
      apply elem_of_map_to_list in Hkv. simpl. now apply (Hb k). }
    destruct (scan_bounds (Bolt.Cursor b) ini) as (H1 & _ & H3).
    { intros kv Hkv. specialize (Hl kv Hkv). rewrite to_uint32_fin in Hl. lia. }
    split; [exact H1 |].
    destruct H3 as [H3 | (x & Hx & H3)].
    - rewrite H3, to_uint32_ini, to_uint32_fin. lia.
    - specialize (Hl x Hx). lia. }
  destruct f; cbn [main Bolt.Update next]; try exact Hs.
  rewrite to_uint32_ini, to_uint32_fin. lia.
Qed.

Lemma below_fin_step (b : gmap string IP) (f : Faults) (h : Handler) (path : string) :
  below_fin b h -> below_fin b (snd (ServeHTTP f h path)).
Proof.
  intros [Hr Hrec].
  destruct (ServeHTTP_cases f h path) as [E | (d & _ & Hd & Hn & _ & E)]; rewrite E.
  - now split.
  - assert (Hlt : to_uint32 (next h) < to_uint32 fin).
    { destruct Hr as [_ Hr].
      assert (to_uint32 (next h) <> to_uint32 fin)
        by (intros E'; apply Hn; now apply to_uint32_inj).
      lia. }
    assert (Hs : to_uint32 (nextIP (next h)) = to_uint32 (next h) + 1).
    { apply nextIP_nowrap. rewrite to_uint32_fin in Hlt. lia. }
    unfold below_fin, cursor_in_range in *. cbn [snd db next]. split; [lia |].
    intros k v Hkv. destruct (decide (d = k)) as [-> | Hne].
    + rewrite lookup_insert_eq in Hkv. injection Hkv as <-.
      split; [exact Hlt |]. intros _. unfold in_pool. lia.
    + rewrite lookup_insert_ne in Hkv by exact Hne. now apply Hrec.
Qed.

(** C9, as the code has it. The guard of [ServeGet] compares the cursor
    with [fin] for equality only. From a cursor above [fin] an unseen
    device is therefore served (store willing): it gets the cursor, an
    address outside the pool. The start-up scan produces such a cursor when
    the highest record is at or above [fin] and is not 255.255.255.255.
    When every record found at start-up is below [fin] and the requests are
    served one after the other, every record stays below [fin] and every
    later allocation lies in the pool; a record at or above [fin] found at
    start-up stays where it is. *)
Theorem guard_is_equality_only :
  (forall (f : Faults) (h : Handler) (d : string),
     db h !! d = None ->
     to_uint32 fin < to_uint32 (next h) ->
     Bolt.valid_key d = true ->
     tx1 f = Bolt.NoFault -> tx2 f = Bolt.NoFault ->
     ServeGet f h d =
       (plain StatusOK (String_ (next h)),
        mkHandler (<[d := next h]> (db h)) (nextIP (next h)))
     /\ ~ in_pool (next h))
  /\ (forall (b : gmap string IP) (m : IP),
        is_max_record b m ->
        to_uint32 fin <= to_uint32 m < 4294967295 ->
        to_uint32 fin < to_uint32 (next (main Bolt.NoFault b)))
  /\ (forall (b : gmap string IP) (f : Bolt.TxFault) (rs : list Request),
        (forall k v, b !! k = Some v -> to_uint32 v < to_uint32 fin) ->
        forall k v, db (snd (serve (main f b) rs)) !! k = Some v ->
          to_uint32 v < to_uint32 fin /\ (b !! k = None -> in_pool v))
  /\ (forall (b : gmap string IP) (f : Bolt.TxFault) (rs : list Request) k v,
        b !! k = Some v -> to_uint32 fin <= to_uint32 v ->
        db (snd (serve (main f b) rs)) !! k = Some v /\ ~ in_pool v).
Proof.
  split; [| split; [| split]].
  - intros f h d Hd Hgt Hk Hf1 Hf2. split.
    + rewrite (ServeGet_unseen f h d Hd), Hf1, Hf2, Hk.
      destruct (Bytes.Compare (slice (next h)) (slice fin) =? 0) eqn:Hc; [| reflexivity].
      apply Compare_eq_0 in Hc. rewrite Hc in Hgt. lia.
    + unfold in_pool. lia.
  - intros b m Hmax Hm.
    destruct (recovery_scan_max b m Hmax) as [E _].
    { rewrite to_uint32_ini. rewrite to_uint32_fin in Hm. lia. }
    rewrite E, nextIP_nowrap by lia. lia.
  - intros b f rs Hb.
    assert (Hinv : below_fin b (snd (serve (main f b) rs))).
    { apply serve_invariant.
      - intros f' h path. apply below_fin_step.
      - split; [now apply main_cursor_in_range |].
        intros k v Hkv. rewrite main_db in Hkv. split; [now apply (Hb k) |].
        intros Hnone. congruence. }
    exact (proj2 Hinv).
  - intros b f rs k v Hkv Hge. split.
    + apply serve_keeps_record. now rewrite main_db.
    + unfold in_pool. lia.
Qed.

Lemma guard_is_equality_only_witness :
  let h := mkHandler {[ "a"%string := fin ]} (dotted 10 93 0 0) in
  db h !! "b"%string = None
  /\ to_uint32 fin < to_uint32 (next h)
  /\ ServeGet no_faults h "b"
     = (plain StatusOK (String_ (next h)),
        mkHandler (<["b"%string := next h]> (db h)) (nextIP (next h)))
  /\ ~ in_pool (next h).
Proof.
  intros h. split; [reflexivity |]. split; [reflexivity |].
  apply (proj1 guard_is_equality_only no_faults h "b"); reflexivity.
Defined.

(** C9 does not hold as stated. A bucket with a record at 255.255.255.255,
    above [fin], and a record 10.8.0.5 scanned after it starts with the
    cursor at 10.8.0.6, inside the pool and not above [fin]. And with every
    start-up record below [fin] an address above [fin] is still handed out
    when calls overlap: from the one record 10.92.255.253 the cursor starts
    at 10.92.255.254; two overlapping first requests both pass the guard
    and both advance the cursor, which steps over [fin] to 10.93.0.0, and a
    third device is given 10.93.0.0. *)
Lemma guard_is_equality_only_counterexample :
  (let b : gmap string IP :=
     <["a"%string := dotted 255 255 255 255]> {[ "b"%string := dotted 10 8 0 5 ]} in
   b !! "a"%string = Some (dotted 255 255 255 255)
   /\ to_uint32 fin <= to_uint32 (dotted 255 255 255 255)
   /\ next (main Bolt.NoFault b) = dotted 10 8 0 6
   /\ ~ to_uint32 fin < to_uint32 (next (main Bolt.NoFault b)))
  /\ (let b : gmap string IP := {[ "z"%string := dotted 10 92 255 253 ]} in
      let s := run_schedule
                 (mkSystem (main Bolt.NoFault b)
                    [mkCall "a" no_faults AtLookup; mkCall "b" no_faults AtLookup;
                     mkCall "c" no_faults AtLookup] [])
                 [0; 1; 0; 1; 0; 1; 0; 1; 0; 1; 2; 2; 2; 2; 2]%nat in
      to_uint32 (dotted 10 92 255 253) < to_uint32 fin
      /\ next (main Bolt.NoFault b) = dotted 10 92 255 254
      /\ responses s = [Some (plain 200 "10.92.255.254");
                        Some (plain 200 "10.92.255.254");
                        Some (plain 200 "10.93.0.0")]
      /\ db (sys_handler s) !! "c"%string = Some (dotted 10 93 0 0)
      /\ to_uint32 fin < to_uint32 (dotted 10 93 0 0)).
Proof.
  split; cbn zeta.
  - split; [reflexivity |]. split; [vm_compute; discriminate |].
    split; [vm_compute; reflexivity |]. vm_compute. intros E. discriminate.
  - repeat split; vm_compute; reflexivity.
Qed.

(** *** The empty device name *)

(** C10, as the code has it. The path "/get/" is dispatched to [ServeGet]
    with the empty string as device name, and nothing in the handler checks
    the name: it is looked up like any other, and a record under it would
    be returned. Unlike any other unseen device it is never allocated an
    address: the store refuses the blank key, so once the lookup has gone
    through and the pool is not exhausted the answer is the 500 "Database
    write failed.", and bucket and cursor stay as they were. *)
Theorem empty_device_is_dispatched_and_refused (f : Faults) (h : Handler) :
  ServeHTTP f h "/get/" = ServeGet f h ""
  /\ (forall a, db h !! ""%string = Some a ->
        ServeGet f h "" =
        (match tx1 f with
         | Bolt.NoFault => plain StatusOK (String_ a)
         | _ => plain StatusInternalServerError "Database lookup failed."
         end, h))
  /\ (db h !! ""%string = None ->
        ServeGet f h "" =
        (plain StatusInternalServerError
           (match tx1 f with
            | Bolt.NoFault =>
                if Bytes.Compare (slice (next h)) (slice fin) =? 0
                then "Ran out of IP addresses."
                else "Database write failed."
            | _ => "Database lookup failed."
            end), h)).
Proof.
  split; [reflexivity | split].
  - intros a Ha. now apply ServeGet_found.
  - intros Hd. rewrite (ServeGet_unseen f h "" Hd).
    change (Bolt.valid_key "") with false.
    destruct (tx1 f); try reflexivity.
    destruct (Bytes.Compare (slice (next h)) (slice fin) =? 0); [reflexivity |].
    now destruct (tx2 f).
Qed.

Lemma empty_device_is_dispatched_and_refused_witness :
  let h := mkHandler ∅ ini in
  db h !! ""%string = None
  /\ ServeHTTP no_faults h "/get/"
     = (plain StatusInternalServerError "Database write failed.", h).
Proof.
  intros h. split; [reflexivity |].
  destruct (empty_device_is_dispatched_and_refused no_faults h) as (E & _ & H).
  rewrite E. apply H. reflexivity.
Defined.

(** C10 fails on a fresh allocator: "/get/" is answered with the 500 of a
    failed write and nothing is recorded, where "/get/a" is given 10.8.0.2
    and recorded. *)
Lemma empty_device_counterexample :
  ServeHTTP no_faults (mkHandler ∅ ini) "/get/"
  = (plain 500 "Database write failed.", mkHandler ∅ ini)
  /\ ServeHTTP no_faults (mkHandler ∅ ini) "/get/a"
     = (plain 200 "10.8.0.2", mkHandler {[ "a"%string := dotted 10 8 0 2 ]} (dotted 10 8 0 3)).
Proof. split; vm_compute; reflexivity. Qed.

(** *** Calls in flight together *)

(** Run on its own, a call is [ServeGet]. *)
Lemma run_call_ServeGet (f : Faults) (h : Handler) (d : string) :
  run_call 5 h (mkCall d f AtLookup)
  = (snd (ServeGet f h d), mkCall d f (Done (fst (ServeGet f h d)))).
Proof.
  destruct (db h !! d) as [a |] eqn:Hd.
  - rewrite (ServeGet_found f h d a Hd).
    unfold run_call, call_step, Bolt.Update, Bolt.Get. cbn [c_pc c_device c_faults].
    rewrite Hd. destruct (tx1 f); cbn -[String_]; rewrite handler_eta; reflexivity.
  - rewrite (ServeGet_unseen f h d Hd).
    unfold run_call, call_step, Bolt.Update, Bolt.Get. cbn [c_pc c_device c_faults].
    rewrite Hd.
    destruct (tx1 f); cbn -[String_ Bytes.Compare nextIP Bolt.Put];
      rewrite ?handler_eta; try reflexivity.
    destruct (Bytes.Compare (slice (next h)) (slice fin) =? 0);
      cbn -[String_ Bytes.Compare nextIP Bolt.Put]; [reflexivity |].
    rewrite Put_valid.
    destruct (tx2 f), (Bolt.valid_key d); cbn -[String_ nextIP];
      rewrite ?handler_eta; reflexivity.
Qed.

Lemma sched_step_single (h : Handler) (c : Call) (log : list (nat * list TxOp)) :
  sched_step (mkSystem h [c] log) 0 =
  mkSystem (fst (fst (call_step h c)))
    [mkCall (c_device c) (c_faults c) (snd (fst (call_step h c)))]
    (match snd (call_step h c) with
     | Some ops => log ++ [(0%nat, ops)]
     | None => log
     end).
Proof.
  unfold sched_step. cbn [sys_calls sys_handler sys_log lookup list_lookup].
  now destruct (call_step h c) as [[h' pc'] tx].
Qed.

Lemma call_step_lookup_unseen (h : Handler) (d : string) :
  db h !! d = None ->
  call_step h (mkCall d no_faults AtLookup) = (h, AtGuard, Some [TxGet d None]).
Proof.
  intros Hd. unfold call_step, Bolt.Update, Bolt.Get.
  cbn [c_pc c_device c_faults tx1 no_faults]. rewrite Hd.
  cbn [negb db next]. rewrite Hd. now rewrite handler_eta.
Qed.

Lemma call_step_guard (h : Handler) (d : string) :
  next h <> fin ->
  call_step h (mkCall d no_faults AtGuard) = (h, AtAllocate, None).
Proof.
  intros Hn. unfold call_step. cbn [c_pc].
  destruct (Bytes.Compare (slice (next h)) (slice fin) =? 0) eqn:Hc; [| reflexivity].
  apply Compare_eq_0 in Hc. contradiction.
Qed.

Lemma call_step_write (h : Handler) (d addr : string) :
  Bolt.valid_key d = true ->
  call_step h (mkCall d no_faults (AtWrite addr))
  = (mkHandler (<[d := next h]> (db h)) (next h), AtAdvance addr,
     Some [TxPut d (next h)]).
Proof.
  intros Hk. unfold call_step, Bolt.Update.
  cbn [c_pc c_device c_faults tx2 no_faults]. rewrite Put_valid, Hk. reflexivity.
Qed.

(** The lookup and the write of one allocation are two transactions. *)
Lemma lookup_and_write_are_two_transactions (h : Handler) (d : string) :
  db h !! d = None ->
  next h <> fin ->
  Bolt.valid_key d = true ->
  sys_log (run_schedule (mkSystem h [mkCall d no_faults AtLookup] []) [0; 0; 0; 0; 0]%nat)
  = [(0%nat, [TxGet d None]); (0%nat, [TxPut d (next h)])].
Proof.
  intros Hd Hn Hk. unfold run_schedule. cbn [fold_left].
  rewrite sched_step_single, (call_step_lookup_unseen h d Hd).
  cbn [fst snd c_device c_faults app].
  rewrite sched_step_single, (call_step_guard h d Hn).
  cbn [fst snd c_device c_faults app].
  rewrite sched_step_single.
  change (call_step h (mkCall d no_faults AtAllocate))
    with (h, AtWrite (String_ (next h)), @None (list TxOp)).
  cbn [fst snd c_device c_faults app].
  rewrite sched_step_single, (call_step_write h d _ Hk).
  cbn [fst snd c_device c_faults app].
  rewrite sched_step_single.
  reflexivity.
Qed.

(** C2. [ServeGet] looks a device up in one [db.Update] and writes its
    record in another, so two first requests for the same unseen device can
    both find no record and both allocate. Two calls for "a" on a fresh
    allocator, scheduled so that both look up before either writes: the log
    shows four transactions, the two lookups returning nil and then two
    writes; the first caller is told 10.8.0.2, the second 10.8.0.3, the
    record of "a" ends as 10.8.0.3 and two addresses are used up. *)
Theorem concurrent_first_requests_both_allocate :
  let s := run_schedule
             (mkSystem (mkHandler ∅ ini)
                [mkCall "a" no_faults AtLookup; mkCall "a" no_faults AtLookup] [])
             [0; 1; 0; 0; 0; 0; 1; 1; 1; 1]%nat in
  sys_log s
  = [(0%nat, [TxGet "a" None]); (1%nat, [TxGet "a" None]);
     (0%nat, [TxPut "a" (dotted 10 8 0 2)]); (1%nat, [TxPut "a" (dotted 10 8 0 3)])]
  /\ responses s = [Some (plain 200 "10.8.0.2"); Some (plain 200 "10.8.0.3")]
  /\ db (sys_handler s) !! "a"%string = Some (dotted 10 8 0 3)
  /\ next (sys_handler s) = dotted 10 8 0 4.
Proof. repeat split; vm_compute; reflexivity. Qed.

(** The same gap between lookup, guard and write lets two different unseen
    devices be given the same address. *)
Lemma concurrent_devices_share_an_address :
  let s := run_schedule
             (mkSystem (mkHandler ∅ ini)
                [mkCall "a" no_faults AtLookup; mkCall "b" no_faults AtLookup] [])
             [0; 1; 0; 1; 0; 1; 0; 1; 0; 1]%nat in
  responses s = [Some (plain 200 "10.8.0.2"); Some (plain 200 "10.8.0.2")]
  /\ db (sys_handler s) !! "a"%string = Some (dotted 10 8 0 2)
  /\ db (sys_handler s) !! "b"%string = Some (dotted 10 8 0 2)
  /\ next (sys_handler s) = dotted 10 8 0 4.
Proof. repeat split; vm_compute; reflexivity. Qed.

(** C1. Calls for a device that already has a record do not all get the
    same address when calls overlap. Of four calls for "a" on a fresh
    allocator, the first two look up before any record exists; the first
    then writes a -> 10.8.0.2. The third call, made with that record in
    the bucket, is answered 10.8.0.2; the second call then overwrites the
    record with 10.8.0.3, and the fourth call, again for a recorded device,
    is answered 10.8.0.3. *)
Theorem recorded_device_answers_differ_under_overlap :
  let s0 := mkSystem (mkHandler ∅ ini)
              [mkCall "a" no_faults AtLookup; mkCall "a" no_faults AtLookup;
               mkCall "a" no_faults AtLookup; mkCall "a" no_faults AtLookup] [] in
  let s1 := run_schedule s0 [0; 1; 0; 0; 0; 0]%nat in
  let s2 := run_schedule s1 [2]%nat in
  let s3 := run_schedule s2 [1; 1; 1; 1]%nat in
  let s4 := run_schedule s3 [3]%nat in
  db (sys_handler s1) !! "a"%string = Some (dotted 10 8 0 2)
  /\ responses s1 !! 2%nat = Some None
  /\ responses s2 !! 2%nat = Some (Some (plain 200 "10.8.0.2"))
  /\ db (sys_handler s3) !! "a"%string = Some (dotted 10 8 0 3)
  /\ responses s3 !! 3%nat = Some None
  /\ responses s4 !! 3%nat = Some (Some (plain 200 "10.8.0.3")).
Proof. repeat split; vm_compute; reflexivity. Qed.

(** C7. From the empty bucket and the cursor at [ini], first-time
    allocations that overlap do not return increasing addresses, and two
    different devices get the same one: the overlapping first requests for
    "a" and "b" are both answered 10.8.0.2, the cursor is advanced twice,
    and the first request for "c" after them is answered 10.8.0.4; the
    bucket ends with a and b both at 10.8.0.2 and no device at 10.8.0.3. *)
Theorem overlapping_first_allocations_collide :
  let s := run_schedule
             (mkSystem (main Bolt.NoFault ∅)
                [mkCall "a" no_faults AtLookup; mkCall "b" no_faults AtLookup;
                 mkCall "c" no_faults AtLookup] [])
             [0; 1; 0; 1; 0; 1; 0; 1; 0; 1; 2; 2; 2; 2; 2]%nat in
  main Bolt.NoFault ∅ = mkHandler ∅ ini
  /\ responses s = [Some (plain 200 "10.8.0.2"); Some (plain 200 "10.8.0.2");
                    Some (plain 200 "10.8.0.4")]
  /\ db (sys_handler s) !! "a"%string = Some (dotted 10 8 0 2)
  /\ db (sys_handler s) !! "b"%string = Some (dotted 10 8 0 2)
  /\ db (sys_handler s) !! "c"%string = Some (dotted 10 8 0 4)
  /\ size (db (sys_handler s)) = 3%nat.
Proof. repeat split; vm_compute; reflexivity. Qed.

(** C8. A record is overwritten with a different address by a resolve of
    its own device when calls overlap. Two calls for "a" both look up
    before either writes; the first commits the record a -> 10.8.0.2 and
    advances the cursor, and the write of the second, which [ServeGet] does
    without looking again, replaces it by a -> 10.8.0.3. *)
Theorem committed_record_is_overwritten_under_overlap :
  let s0 := mkSystem (mkHandler ∅ ini)
              [mkCall "a" no_faults AtLookup; mkCall "a" no_faults AtLookup] [] in
  let s1 := run_schedule s0 [0; 1; 0; 0; 0]%nat in
  let s2 := run_schedule s1 [0; 1; 1; 1]%nat in
  db (sys_handler s1) !! "a"%string = Some (dotted 10 8 0 2)
  /\ sys_log s1 = [(0%nat, [TxGet "a" None]); (1%nat, [TxGet "a" None]);
                   (0%nat, [TxPut "a" (dotted 10 8 0 2)])]
  /\ db (sys_handler s2) !! "a"%string = Some (dotted 10 8 0 3)
  /\ sys_log s2 = sys_log s1 ++ [(1%nat, [TxPut "a" (dotted 10 8 0 3)])]
  /\ dotted 10 8 0 2 <> dotted 10 8 0 3.
Proof.
  cbn zeta. split; [vm_compute; reflexivity |]. split; [vm_compute; reflexivity |].
  split; [vm_compute; reflexivity |]. split; [vm_compute; reflexivity |].
  intros E. apply (f_equal to_uint32) in E. vm_compute in E. discriminate.
Qed.

(** ** Further properties of the code *)

(** *** [nextIP] as a permutation of the address space *)

Lemma nextIP_value (a : IP) :
  to_uint32 (nextIP a) =
  if to_uint32 a =? 4294967295 then 0 else to_uint32 a + 1.
Proof.
  rewrite nextIP_to_uint32. pose proof (to_uint32_range a).
  destruct (Z.eqb_spec (to_uint32 a) 4294967295) as [E | E].
  - rewrite E. reflexivity.
  - apply Z.mod_small. lia.
Qed.

(** X1. [nextIP] never returns the address it was given, and it maps
    different addresses to different addresses: stepping the cursor cannot
    stall and cannot merge two cursors. *)
Theorem nextIP_injective_no_fixpoint :
  (forall a b : IP, nextIP a = nextIP b -> a = b)
  /\ (forall a : IP, nextIP a <> a).
Proof.
  split.
  - intros a b E. apply (f_equal to_uint32) in E. rewrite !nextIP_value in E.
    pose proof (to_uint32_range a). pose proof (to_uint32_range b).
    apply to_uint32_inj.
    destruct (Z.eqb_spec (to_uint32 a) 4294967295);
      destruct (Z.eqb_spec (to_uint32 b) 4294967295); lia.
  - intros a E. apply (f_equal to_uint32) in E. rewrite nextIP_value in E.
    pose proof (to_uint32_range a).
    destruct (Z.eqb_spec (to_uint32 a) 4294967295); lia.
Qed.

Lemma nextIP_injective_no_fixpoint_witness :
  nextIP (dotted 10 8 0 255) = nextIP (mkIP (byte.of_Z 10) (byte.of_Z 8) Bytes.zero (byte.of_Z 255))
  /\ dotted 10 8 0 255 = mkIP (byte.of_Z 10) (byte.of_Z 8) Bytes.zero (byte.of_Z 255).
Proof.
  split; [reflexivity |].
  apply (proj1 nextIP_injective_no_fixpoint). reflexivity.
Defined.

(** X2. Calling [nextIP] [n] times adds [n] to the big-endian value,
    modulo 2^32. *)
Theorem nextIP_iterated (n : nat) (a : IP) :
  to_uint32 (Nat.iter n nextIP a) = (to_uint32 a + Z.of_nat n) mod 2 ^ 32.
Proof.
  change (2 ^ 32) with 4294967296.
  induction n as [| n IH].
  - simpl. rewrite Z.add_0_r. symmetry. apply Z.mod_small, to_uint32_range.
  - change (Nat.iter (S n) nextIP a) with (nextIP (Nat.iter n nextIP a)).
    rewrite nextIP_to_uint32, IH.
    rewrite Zplus_mod_idemp_l. f_equal. lia.
Qed.

(** *** Routing *)

Lemma substring_all (s : string) : String.substring 0 (String.length s) s = s.
Proof. induction s as [| c s IH]; simpl; [reflexivity | now rewrite IH]. Qed.

(** X3. Whatever follows "/get/" in the path is the device name, slashes
    and all: the request for "/get/" followed by [d] is [ServeGet] of [d]. *)
Theorem get_route_resolves_suffix (f : Faults) (h : Handler) (d : string) :
  ServeHTTP f h ("/get/" ++ d) = ServeGet f h d.
Proof.
  unfold ServeHTTP, Strings.TrimPrefix, Strings.HasPrefix.
  change (String.eqb ("/get/" ++ d) "/all") with false.
  assert (Hp : String.prefix "/get/" ("/get/" ++ d) = true).
  { cbn. now destruct d. }
  rewrite Hp.
  assert (Ht : String.substring (String.length "/get/")
                 (String.length ("/get/" ++ d) - String.length "/get/") ("/get/" ++ d)
               = d).
  { change ("/get/" ++ d)%string
      with (String "/" (String "g" (String "e" (String "t" (String "/" d))))).
    cbn [String.length Nat.sub String.substring].
    rewrite Nat.sub_0_r. apply substring_all. }
  now rewrite Ht.
Qed.

Lemma ServeGet_status (f : Faults) (h : Handler) (d : string) :
  status (fst (ServeGet f h d)) = 200 \/ status (fst (ServeGet f h d)) = 500.
Proof.
  destruct (db h !! d) as [a |] eqn:Hd.
  - rewrite (ServeGet_found f h d a Hd). destruct (tx1 f); cbn; auto.
  - rewrite (ServeGet_unseen f h d Hd).
    destruct (tx1 f); cbn [fst status plain]; auto.
    destruct (Bytes.Compare (slice (next h)) (slice fin) =? 0); cbn [fst status plain]; auto.
    destruct (tx2 f), (Bolt.valid_key d); cbn [fst status plain]; auto.
Qed.

Lemma ServeAll_status (f : Faults) (h : Handler) : status (fst (ServeAll f h)) = 200.
Proof. unfold ServeAll, Bolt.Update. now destruct (tx1 f). Qed.

(** X4. The answer is 404 exactly for the paths that are neither "/all"
    nor start with "/get/"; such a request gets "Not found." and leaves the
    handler alone. *)
Theorem not_found_exactly_for_unrouted_paths (f : Faults) (h : Handler) (path : string) :
  (status (fst (ServeHTTP f h path)) = 404
   <-> String.eqb path "/all" = false /\ Strings.HasPrefix path "/get/" = false)
  /\ (String.eqb path "/all" = false -> Strings.HasPrefix path "/get/" = false ->
      ServeHTTP f h path = (plain StatusNotFound "Not found.", h)).
Proof.
  unfold ServeHTTP.
  destruct (String.eqb path "/all") eqn:Ea.
  - split; [| discriminate]. rewrite ServeAll_status. split; [discriminate | intros [E _]; discriminate].
  - destruct (Strings.HasPrefix path "/get/") eqn:Eg.
    + split; [| discriminate]. split; [| intros [_ E]; discriminate].
      destruct (ServeGet_status f h (Strings.TrimPrefix path "/get/")) as [E | E];
        rewrite E; discriminate.
    + split; [| reflexivity]. split; [now split | reflexivity].
Qed.

Lemma not_found_exactly_for_unrouted_paths_witness :
  String.eqb "/get" "/all" = false
  /\ Strings.HasPrefix "/get" "/get/" = false
  /\ ServeHTTP no_faults (mkHandler ∅ ini) "/get"
     = (plain StatusNotFound "Not found.", mkHandler ∅ ini).
Proof.
  split; [reflexivity | split; [reflexivity |]].
  apply (proj2 (not_found_exactly_for_unrouted_paths no_faults (mkHandler ∅ ini) "/get"));
    reflexivity.
Defined.

(** X5. Every answer is plain text with status 200, 404 or 500, and a
    request that is not answered with 200 leaves bucket and cursor exactly
    as they were. *)
Theorem failed_request_changes_nothing (f : Faults) (h : Handler) (path : string) :
  content_type (fst (ServeHTTP f h path)) = "text/plain; charset=utf-8"%string
  /\ (status (fst (ServeHTTP f h path)) = 200
      \/ status (fst (ServeHTTP f h path)) = 404
      \/ status (fst (ServeHTTP f h path)) = 500)
  /\ (status (fst (ServeHTTP f h path)) <> 200 -> snd (ServeHTTP f h path) = h).
Proof.
  split; [| split].
  - rewrite ServeHTTP_dispatch. destruct (requested_device path) as [d |].
    + destruct (db h !! d) as [a |] eqn:Hd.
      * rewrite (ServeGet_found f h d a Hd). now destruct (tx1 f).
      * rewrite (ServeGet_unseen f h d Hd). destruct (tx1 f); try reflexivity.
        destruct (Bytes.Compare (slice (next h)) (slice fin) =? 0); [reflexivity |].
        now destruct (tx2 f), (Bolt.valid_key d).
    + destruct (String.eqb path "/all"); [| reflexivity].
      unfold ServeAll, Bolt.Update. now destruct (tx1 f).
  - rewrite ServeHTTP_dispatch. destruct (requested_device path) as [d |].
    + destruct (ServeGet_status f h d); auto.
    + destruct (String.eqb path "/all"); [left; apply ServeAll_status | right; left; reflexivity].
  - intros Hs. destruct (ServeHTTP_cases f h path) as [E | (d & _ & _ & _ & _ & E)];
      [exact E |]. rewrite E in Hs. cbn in Hs. contradiction.
Qed.

Lemma failed_request_changes_nothing_witness :
  let h := mkHandler ∅ fin in
  status (fst (ServeHTTP no_faults h "/get/a")) <> 200
  /\ snd (ServeHTTP no_faults h "/get/a") = h.
Proof.
  intros h.
  assert (Hs : status (fst (ServeHTTP no_faults h "/get/a")) <> 200)
    by (vm_compute; discriminate).
  split; [exact Hs |].
  exact (proj2 (proj2 (failed_request_changes_nothing no_faults h "/get/a")) Hs).
Defined.

(** *** What [ServeAll] sends *)

Lemma fold_insert_lookup (l : list (string * IP)) :
  forall (m0 : gmap string string) (k : string),
    NoDup (l.*1) ->
    fold_left (fun m kv => <[fst kv := String_ (To4 (snd kv))]> m) l m0 !! k =
    match (list_to_map l : gmap string IP) !! k with
    | Some v => Some (String_ v)
    | None => m0 !! k
    end.
Proof.
  induction l as [| [k' v'] l IH]; intros m0 k Hnd.
  - simpl. now rewrite lookup_empty.
  - apply NoDup_cons in Hnd. destruct Hnd as [Hk' Hnd].
    cbn [fold_left fst snd]. rewrite (IH _ k Hnd).
    cbn [list_to_map foldr uncurry]. unfold To4.
    destruct (decide (k' = k)) as [-> | Hne].
    + rewrite lookup_insert_eq.
      rewrite (not_elem_of_list_to_map_1 l k Hk'). now rewrite lookup_insert_eq.
    + rewrite (lookup_insert_ne (list_to_map l) k' k v' Hne).
      destruct (list_to_map l !! k); [reflexivity |].
      now rewrite lookup_insert_ne.
Qed.

Lemma Cursor_mapping (b : gmap string IP) :
  fold_left (fun m kv => <[fst kv := String_ (To4 (snd kv))]> m) (Bolt.Cursor b) ∅
  = String_ <$> b.
Proof.
  apply map_eq. intros k.
  rewrite fold_insert_lookup.
  - rewrite <- (list_to_map_flip b (Bolt.Cursor b))
      by (symmetry; apply Cursor_Permutation).
    rewrite lookup_fmap, lookup_empty. now destruct (b !! k).
  - rewrite Cursor_Permutation. apply NoDup_fst_map_to_list.
Qed.

Lemma ServeAll_value (f : Faults) (h : Handler) :
  ServeAll f h =
  (mkResponse "text/plain; charset=utf-8" StatusOK
     (JSON (match tx1 f with
            | Bolt.BeginFails => ∅
            | _ => String_ <$> db h
            end)), h).
Proof.
  unfold ServeAll, Bolt.Update.
  destruct (tx1 f); rewrite ?Cursor_mapping, handler_eta; reflexivity.
Qed.

(** X6. [ServeAll] always answers 200 and never changes the handler. When
    its transaction runs, the mapping it sends has exactly the devices of
    the bucket, each with the dotted-decimal text of its address; when the
    transaction cannot begin, the error is dropped and an empty mapping is
    sent, whatever the bucket holds. *)
Theorem ServeAll_lists_every_record (f : Faults) (h : Handler) :
  exists m : gmap string string,
    ServeAll f h = (mkResponse "text/plain; charset=utf-8" StatusOK (JSON m), h)
    /\ (tx1 f <> Bolt.BeginFails ->
        forall k, m !! k = String_ <$> (db h !! k))
    /\ (tx1 f = Bolt.BeginFails -> m = ∅).
Proof.
  eexists. split; [apply ServeAll_value |]. split.
  - intros Hf k. destruct (tx1 f); [| contradiction |]; now rewrite lookup_fmap.
  - intros ->. reflexivity.
Qed.

Lemma ServeAll_lists_every_record_witness :
  let h := mkHandler {[ "a"%string := dotted 10 8 0 2 ]} (dotted 10 8 0 3) in
  exists m : gmap string string,
    body (fst (ServeAll no_faults h)) = JSON m
    /\ m !! "a"%string = Some "10.8.0.2"%string.
Proof.
  intros h.
  destruct (ServeAll_lists_every_record no_faults h) as (m & E & Hrun & _).
  exists m. split; [now rewrite E |].
  rewrite (Hrun ltac:(discriminate) "a"%string). reflexivity.
Defined.

(** *** A first answer is final *)

Lemma ServeGet_ok (f : Faults) (h : Handler) (d s : string) :
  fst (ServeGet f h d) = plain StatusOK s ->
  exists a, db (snd (ServeGet f h d)) !! d = Some a /\ s = String_ a.
Proof.
  destruct (db h !! d) as [a |] eqn:Hd.
  - rewrite (ServeGet_found f h d a Hd). cbn [fst snd].
    destruct (tx1 f); intros E; try discriminate.
    injection E as <-. now exists a.
  - rewrite (ServeGet_unseen f h d Hd).
    destruct (tx1 f); try (intros E; discriminate).
    destruct (Bytes.Compare (slice (next h)) (slice fin) =? 0); [intros E; discriminate |].
    destruct (tx2 f); try (intros E; discriminate).
    destruct (Bolt.valid_key d); [| intros E; discriminate].
    cbn [fst snd db]. intros E. injection E as <-.
    exists (next h). split; [apply lookup_insert_eq | reflexivity].
Qed.

(** X7. With requests served one after the other: once [ServeGet] has
    answered 200 with an address for a device, whether found or newly
    allocated, every later call for that device (its lookup going through)
    answers 200 with the same address and changes nothing, whatever
    requests were served in between. *)
Theorem first_answer_is_repeated
    (f f' : Faults) (h : Handler) (d s : string) (rs : list Request) :
  fst (ServeGet f h d) = plain StatusOK s ->
  tx1 f' = Bolt.NoFault ->
  let h' := snd (serve (snd (ServeGet f h d)) rs) in
  ServeGet f' h' d = (plain StatusOK s, h').
Proof.
  intros Hok Hf' h'. destruct (ServeGet_ok f h d s Hok) as (a & Ha & ->).
  assert (Ha' : db h' !! d = Some a) by (now apply serve_keeps_record).
  rewrite (ServeGet_found f' h' d a Ha'), Hf'. reflexivity.
Qed.

Lemma first_answer_is_repeated_witness :
  let h := mkHandler ∅ ini in
  let rs := [mkRequest "/get/b" no_faults; mkRequest "/all" no_faults;
             mkRequest "/get/a" no_faults] in
  fst (ServeGet no_faults h "a") = plain StatusOK "10.8.0.2"
  /\ ServeGet no_faults (snd (serve (snd (ServeGet no_faults h "a")) rs)) "a"
     = (plain StatusOK "10.8.0.2", snd (serve (snd (ServeGet no_faults h "a")) rs)).
Proof.
  intros h rs.
  assert (E : fst (ServeGet no_faults h "a") = plain StatusOK "10.8.0.2")
    by (vm_compute; reflexivity).
  split; [exact E |].
  apply (first_answer_is_repeated no_faults no_faults h "a" "10.8.0.2" rs E). reflexivity.
Defined.

(** X8. With requests served one after the other: an address answered by
    [ServeGet] with status 200 is what every later listing (its transaction
    running) shows for that device, whatever requests were served in
    between. *)
Theorem answered_address_is_listed
    (f f' : Faults) (h : Handler) (d s : string) (rs : list Request) :
  fst (ServeGet f h d) = plain StatusOK s ->
  tx1 f' <> Bolt.BeginFails ->
  exists m : gmap string string,
    body (fst (ServeAll f' (snd (serve (snd (ServeGet f h d)) rs)))) = JSON m
    /\ m !! d = Some s.
Proof.
  intros Hok Hf'. destruct (ServeGet_ok f h d s Hok) as (a & Ha & ->).
  assert (Ha' : db (snd (serve (snd (ServeGet f h d)) rs)) !! d = Some a)
    by (now apply serve_keeps_record).
  rewrite ServeAll_value. eexists. split; [reflexivity |].
  destruct (tx1 f'); [| contradiction |]; now rewrite lookup_fmap, Ha'.
Qed.

Lemma answered_address_is_listed_witness :
  let h := mkHandler ∅ ini in
  let rs := [mkRequest "/get/b" no_faults; mkRequest "/get/a" no_faults] in
  fst (ServeGet no_faults h "a") = plain StatusOK "10.8.0.2"
  /\ exists m : gmap string string,
       body (fst (ServeAll no_faults (snd (serve (snd (ServeGet no_faults h "a")) rs))))
       = JSON m
       /\ m !! "a"%string = Some "10.8.0.2"%string.
Proof.
  intros h rs.
  assert (E : fst (ServeGet no_faults h "a") = plain StatusOK "10.8.0.2")
    by (vm_compute; reflexivity).
  split; [exact E |].
  apply (answered_address_is_listed no_faults no_faults h "a" "10.8.0.2" rs E). discriminate.
Defined.

(** *** Exhaustion and accounting *)

(** X9. Exhaustion is final: once the cursor equals [fin], no sequence of
    requests changes bucket or cursor, and none of them is a first-time
    allocation. *)
Theorem exhaustion_is_permanent (h : Handler) (rs : list Request) :
  next h = fin ->
  snd (serve h rs) = h /\ fresh_allocs (fst (serve h rs)) = [].
Proof.
  intros Hfin. induction rs as [| [path f] rs IH]; [now split |].
  rewrite serve_cons. cbn [fst snd Path faults]. rewrite fresh_allocs_cons.
  destruct (fresh_alloc_cases f h path) as [[E1 E2] | (d & _ & _ & Hn & _)];
    [| contradiction].
  rewrite E1, E2. exact IH.
Qed.

Lemma exhaustion_is_permanent_witness :
  let h := mkHandler {[ "a"%string := dotted 10 8 0 2 ]} fin in
  let rs := [mkRequest "/get/b" no_faults; mkRequest "/get/a" no_faults;
             mkRequest "/get/c" no_faults] in
  next h = fin /\ snd (serve h rs) = h.
Proof.
  intros h rs. split; [reflexivity |].
  apply (exhaustion_is_permanent h rs). reflexivity.
Defined.

Lemma serve_accounting (rs : list Request) :
  forall h : Handler,
    cursor_in_range h ->
    to_uint32 (next (snd (serve h rs)))
    = to_uint32 (next h) + Z.of_nat (length (fresh_allocs (fst (serve h rs))))
    /\ size (db (snd (serve h rs)))
       = (size (db h) + length (fresh_allocs (fst (serve h rs))))%nat
    /\ cursor_in_range (snd (serve h rs)).
Proof.
  induction rs as [| [path f] rs IH]; intros h Hr.
  - cbn. split; [lia |]. split; [lia | exact Hr].
  - rewrite serve_cons. cbn [fst snd Path faults]. rewrite fresh_allocs_cons.
    destruct (fresh_alloc_cases f h path) as [[E1 E2] | (d & E1 & Hd & Hn & E2)];
      rewrite E1, E2.
    + apply IH. exact Hr.
    + assert (Hlt : to_uint32 (next h) < to_uint32 fin).
      { destruct Hr as [_ Hr].
        assert (to_uint32 (next h) <> to_uint32 fin)
          by (intros E; apply Hn; now apply to_uint32_inj).
        lia. }
      assert (Hs : to_uint32 (nextIP (next h)) = to_uint32 (next h) + 1).
      { apply nextIP_nowrap. rewrite to_uint32_fin in Hlt. lia. }
      destruct (IH (mkHandler (<[d := next h]> (db h)) (nextIP (next h))))
        as (Hc & Hsz & Hr').
      { unfold cursor_in_range in *. cbn [next]. lia. }
      cbn [next db] in Hc, Hsz.
      rewrite map_size_insert_None in Hsz by exact Hd.
      split; [| split; [| exact Hr']].
      * rewrite Hc. cbn [length]. lia.
      * rewrite Hsz. cbn [length]. lia.
Qed.

(** X10. From a cursor between [ini] and [fin], a run of requests moves
    the cursor forward by exactly the number of its first-time allocations
    and adds exactly that many records to the bucket; the cursor never
    moves back and stays at or below [fin]. *)
Theorem cursor_counts_allocations (rs : list Request) (h : Handler) :
  cursor_in_range h ->
  to_uint32 (next (snd (serve h rs)))
  = to_uint32 (next h) + Z.of_nat (length (fresh_allocs (fst (serve h rs))))
  /\ size (db (snd (serve h rs)))
     = (size (db h) + length (fresh_allocs (fst (serve h rs))))%nat
  /\ cursor_in_range (snd (serve h rs)).
Proof. apply serve_accounting. Qed.

Lemma cursor_counts_allocations_witness :
  let h := mkHandler ∅ ini in
  let rs := [mkRequest "/get/a" no_faults; mkRequest "/get/a" no_faults;
             mkRequest "/get/b" no_faults] in
  cursor_in_range h
  /\ to_uint32 (next (snd (serve h rs)))
     = to_uint32 (next h) + Z.of_nat (length (fresh_allocs (fst (serve h rs)))).
Proof.
  intros h rs.
  assert (Hr : cursor_in_range h).
  { unfold cursor_in_range. cbn [next h]. rewrite to_uint32_ini, to_uint32_fin. lia. }
  split; [exact Hr |].
  exact (proj1 (cursor_counts_allocations rs h Hr)).
Defined.

(** *** The cursor as watermark of the bucket *)

Lemma watermark_main (b : gmap string IP) :
  (forall k v, b !! k = Some v -> to_uint32 v < to_uint32 fin) ->
  watermark (main Bolt.NoFault b).
Proof.
  intros Hb. split; [now apply main_cursor_in_range |].
  rewrite main_db, main_next.
  assert (Hl : forall kv, kv ∈ Bolt.Cursor b -> to_uint32 (snd kv) < 4294967295).
  { intros [k v] Hkv. rewrite Cursor_Permutation in Hkv.
    apply elem_of_map_to_list in Hkv. simpl.
    specialize (Hb k v Hkv). rewrite to_uint32_fin in Hb. lia. }
  destruct (scan_bounds (Bolt.Cursor b) ini Hl) as (_ & H2 & H3). split.
  - intros k v Hkv.
    assert (Hin : (k, v) ∈ Bolt.Cursor b)
      by (rewrite Cursor_Permutation; now apply elem_of_map_to_list).
    specialize (H2 (k, v) Hin). simpl in H2. lia.
  - destruct H3 as [H3 | ([k v] & Hx & H3)]; [now left | right].
    exists k, v. split.
    + rewrite Cursor_Permutation in Hx. now apply elem_of_map_to_list in Hx.
    + apply to_uint32_inj. simpl in H3. rewrite H3.
      apply nextIP_nowrap. exact (Hl (k, v) Hx).
Qed.

Lemma watermark_step (f : Faults) (h : Handler) (path : string) :
  watermark h -> watermark (snd (ServeHTTP f h path)).
Proof.
  intros (Hr & Habove & Hsucc).
  destruct (ServeHTTP_cases f h path) as [E | (d & _ & Hd & Hn & _ & E)]; rewrite E.
  - split; [exact Hr | split; [exact Habove | exact Hsucc]].
  - assert (Hlt : to_uint32 (next h) < to_uint32 fin).
    { destruct Hr as [_ Hr].
      assert (to_uint32 (next h) <> to_uint32 fin)
        by (intros E'; apply Hn; now apply to_uint32_inj).
      lia. }
    assert (Hs : to_uint32 (nextIP (next h)) = to_uint32 (next h) + 1).
    { apply nextIP_nowrap. rewrite to_uint32_fin in Hlt. lia. }
    unfold watermark, cursor_in_range in *. cbn [snd db next].
    split; [lia |]. split.
    + intros k v Hkv. destruct (decide (d = k)) as [-> | Hne].
      * rewrite lookup_insert_eq in Hkv. injection Hkv as <-. lia.
      * rewrite lookup_insert_ne in Hkv by exact Hne.
        specialize (Habove k v Hkv). lia.
    + right. exists d, (next h). split; [apply lookup_insert_eq | reflexivity].
Qed.

Lemma watermark_serve (rs : list Request) (h : Handler) :
  watermark h -> watermark (snd (serve h rs)).
Proof.
  apply (serve_invariant watermark). intros f h' path. apply watermark_step.
Qed.

Lemma watermark_restart (h : Handler) :
  watermark h -> main Bolt.NoFault (db h) = h.
Proof.
  intros (Hr & Habove & Hsucc).
  assert (E : scan ini (Bolt.Cursor (db h)) = next h).
  { assert (Hin : forall kv, kv ∈ Bolt.Cursor (db h) ->
                    to_uint32 (snd kv) < to_uint32 (next h)).
    { intros [k v] Hkv. rewrite Cursor_Permutation in Hkv.
      apply elem_of_map_to_list in Hkv. simpl. now apply (Habove k). }
    destruct Hr as [Hlo Hhi]. rewrite to_uint32_fin in Hhi.
    destruct (scan_bounds (Bolt.Cursor (db h)) ini) as (H1 & H2 & H3).
    { intros kv Hkv. specialize (Hin kv Hkv). lia. }
    apply to_uint32_inj.
    assert (Hle : to_uint32 (scan ini (Bolt.Cursor (db h))) <= to_uint32 (next h)).
    { destruct H3 as [H3 | (x & Hx & H3)].
      - rewrite H3. exact Hlo.
      - specialize (Hin x Hx). lia. }
    assert (Hge : to_uint32 (next h) <= to_uint32 (scan ini (Bolt.Cursor (db h)))).
    { destruct Hsucc as [Hs | (k & v & Hkv & Hs)].
      - rewrite Hs. exact H1.
      - assert (Hx : (k, v) ∈ Bolt.Cursor (db h))
          by (rewrite Cursor_Permutation; now apply elem_of_map_to_list).
        specialize (H2 (k, v) Hx). specialize (Hin (k, v) Hx). simpl in H2, Hin.
        rewrite <- Hs, nextIP_nowrap by lia. exact H2. }
    lia. }
  destruct h as [b n]. cbn [db next] in *. unfold main, Bolt.Update. now rewrite E.
Qed.

(** X11. Restarting loses nothing: when every record found at start-up is
    below [fin], then after any run of requests the start-up scan of the
    bucket as it then is gives back exactly the cursor the handler has. *)
Theorem restart_recovers_the_cursor (b : gmap string IP) (rs : list Request) :
  (forall k v, b !! k = Some v -> to_uint32 v < to_uint32 fin) ->
  main Bolt.NoFault (db (snd (serve (main Bolt.NoFault b) rs)))
  = snd (serve (main Bolt.NoFault b) rs).
Proof.
  intros Hb. apply watermark_restart, watermark_serve, watermark_main, Hb.
Qed.

Lemma restart_recovers_the_cursor_witness :
  let b : gmap string IP := {[ "a"%string := dotted 10 8 0 5 ]} in
  let rs := [mkRequest "/get/b" no_faults; mkRequest "/get/c" no_faults] in
  (forall k v, b !! k = Some v -> to_uint32 v < to_uint32 fin)
  /\ main Bolt.NoFault (db (snd (serve (main Bolt.NoFault b) rs)))
     = snd (serve (main Bolt.NoFault b) rs).
Proof.
  intros b rs.
  assert (Hb : forall k v, b !! k = Some v -> to_uint32 v < to_uint32 fin).
  { intros k v Hkv. apply lookup_singleton_Some in Hkv. destruct Hkv as [_ <-].
    reflexivity. }
  split; [exact Hb |].
  exact (restart_recovers_the_cursor b rs Hb).
Defined.

(** X12. Addresses stay unique in the bucket: when the bucket found at
    start-up gives no address to two devices and has every record below
    [fin], then after any run of requests no two devices of the bucket have
    the same address. *)
Theorem bucket_stays_injective (b : gmap string IP) (rs : list Request) :
  injective_bucket b ->
  (forall k v, b !! k = Some v -> to_uint32 v < to_uint32 fin) ->
  injective_bucket (db (snd (serve (main Bolt.NoFault b) rs))).
Proof.
  intros Hinj Hb.
  assert (H : watermark (snd (serve (main Bolt.NoFault b) rs))
              /\ injective_bucket (db (snd (serve (main Bolt.NoFault b) rs)))).
  { apply (serve_invariant (fun h => watermark h /\ injective_bucket (db h))).
    - intros f h path [Hw Hi]. split; [now apply watermark_step |].
      destruct (ServeHTTP_cases f h path) as [E | (d & _ & Hd & _ & _ & E)]; rewrite E;
        [exact Hi |].
      destruct Hw as (_ & Habove & _). cbn [snd db].
      intros k1 k2 v H1 H2.
      destruct (decide (d = k1)) as [<- | N1]; destruct (decide (d = k2)) as [<- | N2];
        try reflexivity.
      + rewrite lookup_insert_eq in H1. injection H1 as <-.
        rewrite lookup_insert_ne in H2 by exact N2.
        specialize (Habove k2 _ H2). lia.
      + rewrite lookup_insert_eq in H2. injection H2 as <-.
        rewrite lookup_insert_ne in H1 by exact N1.
        specialize (Habove k1 _ H1). lia.
      + rewrite lookup_insert_ne in H1 by exact N1.
        rewrite lookup_insert_ne in H2 by exact N2.
        exact (Hi k1 k2 v H1 H2).
    - split; [now apply watermark_main | now rewrite main_db]. }
  exact (proj2 H).
Qed.

Lemma bucket_stays_injective_witness :
  let b : gmap string IP := {[ "a"%string := dotted 10 8 0 5 ]} in
  let rs := [mkRequest "/get/b" no_faults; mkRequest "/get/c" no_faults] in
  injective_bucket b
  /\ injective_bucket (db (snd (serve (main Bolt.NoFault b) rs))).
Proof.
  intros b rs.
  assert (Hi : injective_bucket b).
  { intros k1 k2 v H1 H2. apply lookup_singleton_Some in H1, H2.
    destruct H1 as [<- _], H2 as [<- _]. reflexivity. }
  split; [exact Hi |].
  apply (bucket_stays_injective b rs Hi).
  intros k v H1. apply lookup_singleton_Some in H1. destruct H1 as [_ <-]. reflexivity.
Defined.

(** *** Calls one after the other, and calls that overlap *)

Lemma sched_step_at (s : System) (i : nat) (c : Call) :
  sys_calls s !! i = Some c ->
  sched_step s i =
  mkSystem (fst (fst (call_step (sys_handler s) c)))
    (<[i := mkCall (c_device c) (c_faults c) (snd (fst (call_step (sys_handler s) c)))]>
       (sys_calls s))
    (match snd (call_step (sys_handler s) c) with
     | Some ops => sys_log s ++ [(i, ops)]
     | None => sys_log s
     end).
Proof.
  intros Hc. unfold sched_step. rewrite Hc.
  now destruct (call_step (sys_handler s) c) as [[h' pc'] tx].
Qed.

(** Letting one call take [n] steps in a row is running it on its own. *)
Lemma run_schedule_replicate (n i : nat) :
  forall (s : System) (c : Call),
    sys_calls s !! i = Some c ->
    sys_handler (run_schedule s (replicate n i)) = fst (run_call n (sys_handler s) c)
    /\ sys_calls (run_schedule s (replicate n i))
       = <[i := snd (run_call n (sys_handler s) c)]> (sys_calls s).
Proof.
  induction n as [| n IH]; intros s c Hc.
  - cbn. split; [reflexivity |]. symmetry. now apply list_insert_id.
  - change (run_schedule s (replicate (S n) i))
      with (run_schedule (sched_step s i) (replicate n i)).
    rewrite (sched_step_at s i c Hc).
    cbn [run_call]. destruct (call_step (sys_handler s) c) as [[h' pc'] tx].
    cbn [fst snd].
    set (c' := mkCall (c_device c) (c_faults c) pc').
    set (s' := mkSystem h' (<[i := c']> (sys_calls s)) _).
    assert (Hc' : sys_calls s' !! i = Some c').
    { unfold s'. cbn [sys_calls]. apply list_lookup_insert_eq.
      now apply lookup_lt_Some in Hc. }
    destruct (IH s' c' Hc') as [E1 E2]. split; [exact E1 |].
    rewrite E2. unfold s'. cbn [sys_calls sys_handler]. apply list_insert_insert_eq.
Qed.

Lemma run_schedule_app (s : System) (l1 l2 : list nat) :
  run_schedule s (l1 ++ l2) = run_schedule (run_schedule s l1) l2.
Proof. apply fold_left_app. Qed.

(** The step-wise reading of [ServeGet] agrees with [ServeGet] when calls
    do not overlap. *)
Lemma serial_calls_are_sequential
    (h : Handler) (d1 d2 : string) (f1 f2 : Faults) :
  let s := run_schedule
             (mkSystem h [mkCall d1 f1 AtLookup; mkCall d2 f2 AtLookup] [])
             (replicate 5 0%nat ++ replicate 5 1%nat) in
  sys_handler s = snd (ServeGet f2 (snd (ServeGet f1 h d1)) d2)
  /\ responses s
     = [Some (fst (ServeGet f1 h d1));
        Some (fst (ServeGet f2 (snd (ServeGet f1 h d1)) d2))].
Proof.
  intros s. unfold s. rewrite run_schedule_app.
  destruct (run_schedule_replicate 5 0
              (mkSystem h [mkCall d1 f1 AtLookup; mkCall d2 f2 AtLookup] [])
              (mkCall d1 f1 AtLookup) eq_refl) as [H1 C1].
  remember (run_schedule
              (mkSystem h [mkCall d1 f1 AtLookup; mkCall d2 f2 AtLookup] [])
              (replicate 5 0%nat)) as s1 eqn:Es1.
  clear Es1. cbn [sys_handler sys_calls] in H1, C1.
  rewrite run_call_ServeGet in H1, C1. cbn [fst snd] in H1, C1.
  assert (L1 : sys_calls s1 !! 1%nat = Some (mkCall d2 f2 AtLookup))
    by (rewrite C1; reflexivity).
  destruct (run_schedule_replicate 5 1 s1 (mkCall d2 f2 AtLookup) L1) as [H2 C2].
  remember (run_schedule s1 (replicate 5 1%nat)) as s2 eqn:Es2. clear Es2.
  rewrite H1, run_call_ServeGet in H2. rewrite H1, run_call_ServeGet, C1 in C2.
  cbn [fst snd] in H2, C2. split; [exact H2 |].
  unfold responses. rewrite C2. reflexivity.
Qed.

Lemma sched_step_pair0 (h : Handler) (c0 c1 : Call) (log : list (nat * list TxOp)) :
  sched_step (mkSystem h [c0; c1] log) 0 =
  mkSystem (fst (fst (call_step h c0)))
    [mkCall (c_device c0) (c_faults c0) (snd (fst (call_step h c0))); c1]
    (match snd (call_step h c0) with
     | Some ops => log ++ [(0%nat, ops)]
     | None => log
     end).
Proof. now rewrite (sched_step_at (mkSystem h [c0; c1] log) 0 c0 eq_refl). Qed.

Lemma sched_step_pair1 (h : Handler) (c0 c1 : Call) (log : list (nat * list TxOp)) :
  sched_step (mkSystem h [c0; c1] log) 1 =
  mkSystem (fst (fst (call_step h c1)))
    [c0; mkCall (c_device c1) (c_faults c1) (snd (fst (call_step h c1)))]
    (match snd (call_step h c1) with
     | Some ops => log ++ [(1%nat, ops)]
     | None => log
     end).
Proof. now rewrite (sched_step_at (mkSystem h [c0; c1] log) 1 c1 eq_refl). Qed.

Lemma call_step_allocate (h : Handler) (d : string) (f : Faults) :
  call_step h (mkCall d f AtAllocate) = (h, AtWrite (String_ (next h)), None).
Proof. reflexivity. Qed.

Lemma call_step_advance (h : Handler) (d addr : string) (f : Faults) :
  call_step h (mkCall d f (AtAdvance addr))
  = (mkHandler (db h) (nextIP (next h)), Done (plain StatusOK addr), None).
Proof. reflexivity. Qed.

(** X14. Two calls for unseen devices that overlap step for step are both
    answered 200 with the same address, the cursor they both read: both
    devices are recorded with it, and the cursor moves on twice. *)
Theorem overlapping_calls_share_the_cursor (h : Handler) (d1 d2 : string) :
  db h !! d1 = None -> db h !! d2 = None ->
  Bolt.valid_key d1 = true -> Bolt.valid_key d2 = true ->
  next h <> fin ->
  let s := run_schedule
             (mkSystem h [mkCall d1 no_faults AtLookup; mkCall d2 no_faults AtLookup] [])
             [0; 1; 0; 1; 0; 1; 0; 1; 0; 1]%nat in
  responses s = [Some (plain StatusOK (String_ (next h)));
                 Some (plain StatusOK (String_ (next h)))]
  /\ db (sys_handler s) = <[d2 := next h]> (<[d1 := next h]> (db h))
  /\ next (sys_handler s) = nextIP (nextIP (next h)).
Proof.
  intros Hd1 Hd2 Hk1 Hk2 Hn s. unfold s, run_schedule. cbn [fold_left].
  rewrite sched_step_pair0, (call_step_lookup_unseen h d1 Hd1).
  cbn [fst snd c_device c_faults].
  rewrite sched_step_pair1, (call_step_lookup_unseen h d2 Hd2).
  cbn [fst snd c_device c_faults].
  rewrite sched_step_pair0, (call_step_guard h d1 Hn).
  cbn [fst snd c_device c_faults].
  rewrite sched_step_pair1, (call_step_guard h d2 Hn).
  cbn [fst snd c_device c_faults].
  rewrite sched_step_pair0, call_step_allocate.
  cbn [fst snd c_device c_faults].
  rewrite sched_step_pair1, call_step_allocate.
  cbn [fst snd c_device c_faults].
  rewrite sched_step_pair0, (call_step_write h d1 _ Hk1).
  cbn [fst snd c_device c_faults].
  rewrite sched_step_pair1, (call_step_write _ d2 _ Hk2).
  cbn [fst snd c_device c_faults db next].
  rewrite sched_step_pair0, call_step_advance.
  cbn [fst snd c_device c_faults db next].
  rewrite sched_step_pair1, call_step_advance.
  cbn [fst snd c_device c_faults db next sys_handler].
  repeat split; reflexivity.
Qed.

Lemma overlapping_calls_share_the_cursor_witness :
  let h := mkHandler ∅ ini in
  let s := run_schedule
             (mkSystem h [mkCall "a" no_faults AtLookup; mkCall "b" no_faults AtLookup] [])
             [0; 1; 0; 1; 0; 1; 0; 1; 0; 1]%nat in
  db h !! "a"%string = None
  /\ responses s = [Some (plain StatusOK (String_ (next h)));
                    Some (plain StatusOK (String_ (next h)))].
Proof.
  intros h s. split; [reflexivity |].
  apply (overlapping_calls_share_the_cursor h "a" "b"); try reflexivity.
  vm_compute. discriminate.
Defined.

(** *** Capacity, unrecordable names, and the top of the address space *)

(** X15. A run never makes more first-time allocations than there are
    addresses between the cursor and [fin]; from the cursor at [ini] that
    is at most 5570557, the addresses 10.8.0.2 to 10.92.255.254. *)
Theorem allocations_bounded_by_pool (rs : list Request) (h : Handler) :
  cursor_in_range h ->
  Z.of_nat (length (fresh_allocs (fst (serve h rs))))
  <= to_uint32 fin - to_uint32 (next h)
  /\ (next h = ini ->
      Z.of_nat (length (fresh_allocs (fst (serve h rs)))) <= 5570557).
Proof.
  intros Hr. destruct (serve_accounting rs h Hr) as (Hc & _ & [_ Hhi]).
  split; [lia |]. intros E. rewrite E, to_uint32_ini in Hc.
  rewrite to_uint32_fin in Hhi. lia.
Qed.

Lemma allocations_bounded_by_pool_witness :
  let h := mkHandler ∅ (dotted 10 92 255 254) in
  let rs := [mkRequest "/get/a" no_faults; mkRequest "/get/b" no_faults] in
  cursor_in_range h
  /\ Z.of_nat (length (fresh_allocs (fst (serve h rs)))) <= 1.
Proof.
  intros h rs.
  assert (Hr : cursor_in_range h) by (vm_compute; split; discriminate).
  split; [exact Hr |].
  exact (proj1 (allocations_bounded_by_pool rs h Hr)).
Defined.

Lemma ServeHTTP_keeps_keys_valid (f : Faults) (h : Handler) (path : string) :
  (forall k v, db h !! k = Some v -> Bolt.valid_key k = true) ->
  forall k v, db (snd (ServeHTTP f h path)) !! k = Some v -> Bolt.valid_key k = true.
Proof.
  intros Hv k v.
  destruct (ServeHTTP_cases f h path) as [E | (d & _ & _ & _ & Hk & E)]; rewrite E.
  - apply Hv.
  - cbn [snd db]. destruct (decide (d = k)) as [<- | Hne].
    + intros _. exact Hk.
    + rewrite lookup_insert_ne by exact Hne. apply Hv.
Qed.

(** X16. A device name the store cannot take as a key (empty, or longer
    than 32768 bytes) and without a record is always answered 500, and the
    call leaves bucket and cursor alone. Hence no run of requests ever adds
    such a name to the bucket. *)
Theorem unrecordable_names_are_refused :
  (forall (f : Faults) (h : Handler) (d : string),
     Bolt.valid_key d = false ->
     db h !! d = None ->
     status (fst (ServeGet f h d)) = 500 /\ snd (ServeGet f h d) = h)
  /\ (forall (h : Handler) (rs : list Request),
        (forall k v, db h !! k = Some v -> Bolt.valid_key k = true) ->
        forall k v, db (snd (serve h rs)) !! k = Some v -> Bolt.valid_key k = true).
Proof.
  split.
  - intros f h d Hk Hd. rewrite (ServeGet_unseen f h d Hd), Hk.
    destruct (tx1 f); try (split; reflexivity).
    destruct (Bytes.Compare (slice (next h)) (slice fin) =? 0); [split; reflexivity |].
    destruct (tx2 f); split; reflexivity.
  - intros h rs Hv.
    apply (serve_invariant
             (fun h' => forall k v, db h' !! k = Some v -> Bolt.valid_key k = true));
      [| exact Hv].
    intros f h' path. apply ServeHTTP_keeps_keys_valid.
Qed.

Lemma unrecordable_names_are_refused_witness :
  let h := mkHandler ∅ ini in
  Bolt.valid_key "" = false
  /\ db h !! ""%string = None
  /\ status (fst (ServeGet no_faults h "")) = 500
  /\ snd (ServeGet no_faults h "") = h.
Proof.
  intros h. split; [reflexivity | split; [reflexivity |]].
  apply (proj1 unrecordable_names_are_refused no_faults h ""); reflexivity.
Defined.

Lemma scan_app (n : IP) (l1 l2 : list (string * IP)) :
  scan n (l1 ++ l2) = scan (scan n l1) l2.
Proof. apply fold_left_app. Qed.

(** X17. The scan wraps at the top of the address space: whatever was
    scanned before, a record 255.255.255.255 sets the cursor to 0.0.0.0 (it
    is at or above every cursor, and its successor wraps), so when it is
    the last record scanned the start-up cursor is 0.0.0.0, below [ini]. *)
Theorem scan_wraps_at_top (n : IP) (l : list (string * IP)) (k : string) :
  scan n (l ++ [(k, dotted 255 255 255 255)]) = dotted 0 0 0 0
  /\ to_uint32 (dotted 0 0 0 0) < to_uint32 ini.
Proof.
  split; [| reflexivity].
  rewrite scan_app. cbn [scan fold_left]. unfold scan_step, To4, IPv4. cbn [snd].
  rewrite Compare_ge_0.
  pose proof (to_uint32_range (scan n l)) as Hr.
  replace (to_uint32 (scan n l) <=? to_uint32 (dotted 255 255 255 255)) with true.
  - reflexivity.
  - symmetry. apply Z.leb_le. change (to_uint32 (dotted 255 255 255 255)) with 4294967295.
    lia.
Qed.

(** *** A record that was there before the calls started *)

Lemma call_step_keeps_record (h : Handler) (c : Call) (k : string) (v : IP) :
  db h !! k = Some v ->
  answers_record k v c ->
  db (fst (fst (call_step h c))) !! k = Some v
  /\ answers_record k v (mkCall (c_device c) (c_faults c) (snd (fst (call_step h c)))).
Proof.
  intros Hk Hc. destruct c as [d f pc]. unfold answers_record in *.
  cbn [c_device c_faults c_pc] in *.
  destruct (decide (d = k)) as [-> | Hne].
  - destruct (Hc eq_refl) as [-> | [-> | ->]].
    + unfold call_step, Bolt.Update, Bolt.Get. cbn [c_pc c_device c_faults].
      rewrite Hk. destruct (tx1 f); cbn -[String_]; (split; [exact Hk | intros _]); auto.
    + cbn. split; [exact Hk | intros _]. auto.
    + cbn. split; [exact Hk | intros _]. auto.
  - split; [| intros E; congruence].
    destruct pc as [| | | addr | addr | r]; try exact Hk.
    + unfold call_step, Bolt.Update, Bolt.Get. cbn [c_pc c_device c_faults].
      destruct (tx1 f), (db h !! d); exact Hk.
    + unfold call_step. cbn [c_pc].
      destruct (Bytes.Compare (slice (next h)) (slice fin) =? 0); exact Hk.
    + unfold call_step, Bolt.Update. cbn [c_pc c_device c_faults].
      rewrite Put_valid.
      destruct (tx2 f), (Bolt.valid_key d); cbn [fst snd db]; try exact Hk.
      now rewrite lookup_insert_ne.
Qed.

Lemma sched_step_keeps_record (s : System) (i : nat) (k : string) (v : IP) :
  db (sys_handler s) !! k = Some v ->
  Forall (answers_record k v) (sys_calls s) ->
  db (sys_handler (sched_step s i)) !! k = Some v
  /\ Forall (answers_record k v) (sys_calls (sched_step s i)).
Proof.
  intros Hk Hcs. destruct (sys_calls s !! i) as [c |] eqn:Hi.
  - rewrite (sched_step_at s i c Hi). cbn [sys_handler sys_calls].
    pose proof (Forall_lookup_1 _ _ _ _ Hcs Hi) as Hc.
    destruct (call_step_keeps_record (sys_handler s) c k v Hk Hc) as [H1 H2].
    split; [exact H1 |]. now apply Forall_insert.
  - unfold sched_step. rewrite Hi. now split.
Qed.

Lemma run_schedule_keeps_record (schedule : list nat) (k : string) (v : IP) :
  forall s : System,
    db (sys_handler s) !! k = Some v ->
    Forall (answers_record k v) (sys_calls s) ->
    db (sys_handler (run_schedule s schedule)) !! k = Some v
    /\ Forall (answers_record k v) (sys_calls (run_schedule s schedule)).
Proof.
  induction schedule as [| i schedule IH]; intros s Hk Hcs; [now split |].
  change (run_schedule s (i :: schedule))
    with (run_schedule (sched_step s i) schedule).
  destruct (sched_step_keeps_record s i k v Hk Hcs) as [H1 H2].
  now apply IH.
Qed.

(** X13. A record that is in the bucket before any of the calls in flight
    has started is safe from them: however many [ServeGet] calls there are,
    for whatever devices and with whatever store failures, and in whatever
    order their steps are taken, the record keeps its address, and every
    call for its device that has finished answered 200 with that address or
    the 500 of a failed lookup. *)
Theorem startup_record_survives_overlap
    (h : Handler) (cs : list Call) (schedule : list nat) (k : string) (v : IP) :
  db h !! k = Some v ->
  Forall (fun c => c_pc c = AtLookup) cs ->
  let s := run_schedule (mkSystem h cs []) schedule in
  db (sys_handler s) !! k = Some v
  /\ forall (i : nat) (c : Call) (r : Response),
       sys_calls s !! i = Some c -> c_device c = k -> c_pc c = Done r ->
       r = plain StatusOK (String_ v)
       \/ r = plain StatusInternalServerError "Database lookup failed.".
Proof.
  intros Hk Hcs s.
  destruct (run_schedule_keeps_record schedule k v (mkSystem h cs [])) as [H1 H2].
  - exact Hk.
  - cbn [sys_calls]. eapply Forall_impl; [exact Hcs |].
    intros c Hc _. now left.
  - fold s in H1, H2. split; [exact H1 |].
    intros i c r Hi Hd Hr.
    pose proof (Forall_lookup_1 _ _ _ _ H2 Hi Hd) as [E | [E | E]];
      rewrite E in Hr; [discriminate | left | right]; congruence.
Qed.

Lemma startup_record_survives_overlap_witness :
  let h := mkHandler {[ "z"%string := dotted 10 8 0 2 ]} (dotted 10 8 0 3) in
  let cs := [mkCall "a" no_faults AtLookup; mkCall "z" no_faults AtLookup;
             mkCall "a" no_faults AtLookup; mkCall "z" no_faults AtLookup] in
  let s := run_schedule (mkSystem h cs []) [0; 2; 1; 0; 2; 0; 2; 0; 2; 3; 0; 2]%nat in
  db h !! "z"%string = Some (dotted 10 8 0 2)
  /\ db (sys_handler s) !! "z"%string = Some (dotted 10 8 0 2).
Proof.
  intros h cs s. split; [reflexivity |].
  apply (startup_record_survives_overlap h cs _ "z" (dotted 10 8 0 2)).
  - reflexivity.
  - repeat constructor.
Defined.
